(** * pdf_to_markdown.py: a shallow embedding and its verified properties

    The script extracts the text of a PDF with PyMuPDF, splits long pages
    into chunks, sends every chunk to a text-generation endpoint, and
    reassembles the answers into one Markdown document.

    The development follows the source file top-down:
    - [Py]        the fragments of Python's [str], [re] and [range] the
                  script relies on;
    - [Chunker]   [_chunk_text];
    - [Runtime]   the world the script runs in (PDF library, HTTP endpoint,
                  file system, standard output) and the effect monad;
    - [Converter] [extract_text_from_pdf], [process_with_gemma] and
                  [convert_to_markdown];
    - [Props], [Scenario], [Invariants]: the vocabulary of the properties,
                  concrete worlds, and the loop invariants of the proofs;
    - the theorems, one block per component. *)

From Stdlib Require Import ZArith NArith List Lia Bool String Ascii.
From Stdlib Require Import Floats.SpecFloat.
From stdpp Require Import base option list gmap.

Local Open Scope Z_scope.

(** ** Python strings *)

Module Py.

(** A Python [str] is a sequence of Unicode code points. *)
Abbreviation str := (list N).

(** [len(xs)] of a string or a list, as a Python integer. *)
Definition len {A} (xs : list A) : Z := Z.of_nat (length xs).

(** Truth value of a string in [if s:]. *)
Definition truthy (s : str) : bool :=
  match s with [] => false | _ :: _ => true end.

(** ASCII literals of the source, as code points. *)
Definition lit (s : string) : str :=
  map N_of_ascii (list_ascii_of_string s).

Definition LF : N := 10%N.
Definition SP : N := 32%N.

(** The separator of [text.split("\n\n")] and of ["\n\n".join]. *)
Definition blank_line : str := [LF; LF].

(** Unicode white space: the code points for which [str.isspace] holds and
    which [\s] matches in a [str] pattern. *)
Definition isspace (c : N) : bool :=
  ((9 <=? c) && (c <=? 13) || (28 <=? c) && (c <=? 32)
   || (c =? 133) || (c =? 160) || (c =? 5760)
   || (8192 <=? c) && (c <=? 8202)
   || (c =? 8232) || (c =? 8233) || (c =? 8239) || (c =? 8287)
   || (c =? 12288))%N.

(** The character class [[.!?]]. *)
Definition is_terminator (c : N) : bool :=
  ((c =? 46) || (c =? 33) || (c =? 63))%N.

(** Puts [c] in front of the first piece of a split. *)
Definition cons_first (c : N) (pieces : list str) : list str :=
  match pieces with
  | [] => [[c]]
  | p :: ps => (c :: p) :: ps
  end.

(** [s.split("\n\n")]: the pieces between the leftmost non-overlapping
    occurrences of the separator; always at least one piece. *)
Fixpoint split_blank (s : str) : list str :=
  match s with
  | [] => [[]]
  | c :: s' =>
      match s' with
      | c' :: s'' =>
          if ((c =? LF) && (c' =? LF))%N then [] :: split_blank s''
          else cons_first c (split_blank s')
      | [] => cons_first c (split_blank s')
      end
  end.

(** [sep.join(pieces)]. *)
Fixpoint join (sep : str) (pieces : list str) : str :=
  match pieces with
  | [] => []
  | [p] => p
  | p :: ps => p ++ sep ++ join sep ps
  end.

(** The scanner of [re.split(r"(?<=[.!?])\s+", s)].  The pattern matches a
    maximal run of white space whose first character directly follows a
    terminator.  [Text b]: outside a match, [b] telling whether the previous
    character is a terminator (the look-behind); [Gap]: inside a match. *)
Inductive scan := Text (after_terminator : bool) | Gap.

Fixpoint split_scan (st : scan) (s : str) : list str :=
  match s with
  | [] => [[]]
  | c :: s' =>
      match st with
      | Gap =>
          if isspace c then split_scan Gap s'
          else cons_first c (split_scan (Text (is_terminator c)) s')
      | Text after =>
          if after && isspace c then [] :: split_scan Gap s'
          else cons_first c (split_scan (Text (is_terminator c)) s')
      end
  end.

Definition split_sentences (s : str) : list str := split_scan (Text false) s.

(** [s.lstrip()] and [s.strip()]: white space removed at the ends. *)
Fixpoint lstrip (s : str) : str :=
  match s with
  | [] => []
  | c :: s' => if isspace c then lstrip s' else s
  end.

Definition strip (s : str) : str := rev (lstrip (rev (lstrip s))).

(** [range(start, stop, step)] for a positive step, as the list it
    iterates over. *)
Definition range (start stop step : Z) : list Z :=
  map (fun k => start + Z.of_nat k * step)
      (seq 0 (Z.to_nat ((stop - start + step - 1) / step))).

(** The slice [s[i:j]] for [0 <= i <= j]. *)
Definition slice (s : str) (i j : Z) : str :=
  take (Z.to_nat (j - i)) (drop (Z.to_nat i) s).

End Py.

Import Py.

(** ** The chunker: [_chunk_text] *)

Module Chunker.

(** The loop state: the list [chunks] and the accumulator [current_chunk]. *)
Definition state : Type := list str * str.

(** Body of [for sentence in sentences]. *)
Definition add_sentence (max_chunk_size : Z) (st : state) (sentence : str)
  : state :=
  let '(chunks, current_chunk) := st in
  if len current_chunk + len sentence + 1 <=? max_chunk_size then
    (chunks,
     (if truthy current_chunk then current_chunk ++ [SP] else current_chunk)
       ++ sentence)
  else (chunks ++ [current_chunk], sentence).

(** Body of [for paragraph in paragraphs]. *)
Definition add_paragraph (max_chunk_size : Z) (st : state) (paragraph : str)
  : state :=
  let '(chunks, current_chunk) := st in
  if len current_chunk + len paragraph + 2 <=? max_chunk_size then
    (chunks,
     (if truthy current_chunk then current_chunk ++ blank_line
      else current_chunk) ++ paragraph)
  else
    let chunks :=
      if truthy current_chunk then chunks ++ [current_chunk] else chunks in
    if len paragraph >? max_chunk_size then
      fold_left (add_sentence max_chunk_size) (split_sentences paragraph)
                (chunks, [])
    else (chunks, paragraph).

(** The final [if current_chunk: chunks.append(current_chunk)]. *)
Definition flush (st : state) : list str :=
  let '(chunks, current_chunk) := st in
  if truthy current_chunk then chunks ++ [current_chunk] else chunks.

Definition _chunk_text (text : str) (max_chunk_size : Z) : list str :=
  flush (fold_left (add_paragraph max_chunk_size) (split_blank text) ([], [])).

(** The default value of [max_chunk_size]. *)
Definition default_max_chunk_size : Z := 8000.

End Chunker.

Import Chunker.

(** ** The world of the script and its effects *)

Module Runtime.

(** Exceptions that can leave a call of the converter.  [Exception] is the
    one the script raises itself; the others come from the libraries. *)
Inductive exn :=
| Exception (message : str)
| FitzError (message : str)
| RequestError (message : str)
| JSONDecodeError
| AttributeError
| TypeError
| OSError
| UnicodeEncodeError.

Inductive result (A : Type) :=
| Ok (a : A)
| Raise (e : exn).
Arguments Ok {A} a.
Arguments Raise {A} e.

(** What [json.loads] builds; also the Python values the model's answer
    can take once decoded. *)
#[warnings="-register-all"]
Inductive json :=
| JNull
| JBool (b : bool)
| JInt (z : Z)
| JFloat (f : spec_float)
| JString (s : str)
| JArray (items : list json)
| JObject (fields : list (str * json)).

(** PyMuPDF: a text block as [page.get_text("blocks")] returns it, the
    tuple [(x0, y0, x1, y1, text, block_no, block_type)]. *)
Record raw_block := {
  x0 : spec_float; y0 : spec_float; x1 : spec_float; y1 : spec_float;
  block_text : str; block_no : Z; block_type : Z }.

(** PyMuPDF: a page.  Either text extraction can fail on a damaged page. *)
Record pdf_page := {
  get_text_text : result str;
  rect_width : spec_float;
  rect_height : spec_float;
  get_text_blocks : result (list raw_block) }.

(** [requests]: the response object, as far as the script looks at it. *)
Record http_response := {
  status_code : Z;
  text : str;
  decoded : result json }.

(** The six instruction templates of [convert_to_markdown]; the numbers
    are the ones formatted into the template. *)
Inductive instruction :=
| ChunkInstruction (page_num chunk_no chunk_count : Z)
| CombineInstruction (page_num : Z)
| PageInstruction (page_num : Z)
| FinalInstruction
| SectionInstruction (section_no : Z)
| BoundaryCleanInstruction.

(** One POST to [{ollama_url}/api/generate]: the JSON body has the model
    name, the prompt (a fixed template around instruction and content) and
    [stream = False]. *)
Record request := {
  url : str;
  model : str;
  prompt_instruction : instruction;
  prompt_content : str;
  stream : bool }.

(** Lines printed to standard output. *)
Inductive message :=
| MsgExtracting (pdf_path : str)
| MsgProcessingPage (i total : Z)
| MsgProcessingChunk (j total : Z)
| MsgFinalizing
| MsgLargeDocument
| MsgSaved (output_path : str).

(** What the script cannot control: the PDFs on disk, the answers of the
    endpoint (which may depend on everything it has received so far) and
    which paths can be opened for writing. *)
Record environment := {
  fitz_open : str -> result (list pdf_page);
  endpoint : list request -> request -> result http_response;
  writable : str -> bool }.

(** What the script changes. *)
Record world := {
  open_documents : list str;
  traffic : list (request * result http_response);
  files : gmap str str;
  stdout : list message }.

(** Computations: state passing with exceptions. *)
Definition M (A : Type) : Type := world -> result A * world.

Definition ret {A} (a : A) : M A := fun w => (Ok a, w).
Definition raise {A} (e : exn) : M A := fun w => (Raise e, w).
Definition bind {A B} (m : M A) (k : A -> M B) : M B :=
  fun w =>
    match m w with
    | (Ok a, w') => k a w'
    | (Raise e, w') => (Raise e, w')
    end.
Definition lift {A} (r : result A) : M A := fun w => (r, w).

(** A [for] loop whose body updates the variables [acc]. *)
Fixpoint for_each {A S} (body : S -> A -> M S) (xs : list A) (acc : S) : M S :=
  match xs with
  | [] => ret acc
  | x :: xs' => bind (body acc x) (for_each body xs')
  end.

(** [enumerate(xs)]. *)
Definition enumerate {A} (xs : list A) : list (Z * A) :=
  zip (map Z.of_nat (seq 0 (length xs))) xs.

(** Field updates of the world. *)
Definition with_open_documents (ds : list str) (w : world) : world :=
  {| open_documents := ds; traffic := traffic w;
     files := files w; stdout := stdout w |}.
Definition with_traffic (t : list (request * result http_response))
  (w : world) : world :=
  {| open_documents := open_documents w; traffic := t;
     files := files w; stdout := stdout w |}.
Definition with_files (fs : gmap str str) (w : world) : world :=
  {| open_documents := open_documents w; traffic := traffic w;
     files := fs; stdout := stdout w |}.
Definition with_stdout (out : list message) (w : world) : world :=
  {| open_documents := open_documents w; traffic := traffic w;
     files := files w; stdout := out |}.

(** [print(...)]: the line is appended to standard output; writing to
    standard output is taken to succeed. *)
Definition print (m : message) : M unit :=
  fun w => (Ok tt, with_stdout (stdout w ++ [m]) w).

(** Removes one occurrence of a handle. *)
Fixpoint remove_one (d : str) (ds : list str) : list str :=
  match ds with
  | [] => []
  | d' :: ds' => if decide (d = d') then ds' else d' :: remove_one d ds'
  end.

(** [d.get(key, default)] on a decoded JSON value; only objects have
    [get]. *)
Fixpoint lookup_field (key : str) (fields : list (str * json)) : option json :=
  match fields with
  | [] => None
  | (k, v) :: fields' =>
      if decide (k = key) then Some v else lookup_field key fields'
  end.

Definition dict_get (d : json) (key : str) (default : json) : result json :=
  match d with
  | JObject fields => Ok (match lookup_field key fields with Some v => v | None => default end)
  | _ => Raise AttributeError
  end.

(** Using a decoded value where a [str] is required: [v + "..."],
    ["...".join([.., v, ..])], [s += v], [f.write(v)]. *)
Definition as_str (v : json) : result str :=
  match v with
  | JString s => Ok s
  | _ => Raise TypeError
  end.

Fixpoint all_str (vs : list json) : result (list str) :=
  match vs with
  | [] => Ok []
  | v :: vs' =>
      match as_str v, all_str vs' with
      | Ok s, Ok ss => Ok (s :: ss)
      | _, _ => Raise TypeError
      end
  end.

Definition str_join (sep : str) (vs : list json) : result str :=
  match all_str vs with
  | Ok ss => Ok (join sep ss)
  | Raise e => Raise e
  end.

(** Lone surrogates cannot be encoded as UTF-8. *)
Definition is_surrogate (c : N) : bool := ((55296 <=? c) && (c <=? 57343))%N.

End Runtime.

Import Runtime.

Declare Scope py_scope.
Delimit Scope py_scope with py.
Notation "x <- m ;; k" := (bind m (fun x => k))
  (at level 100, m at next level, right associativity) : py_scope.
Notation "m ;;; k" := (bind m (fun _ => k))
  (at level 100, right associativity) : py_scope.

Local Open Scope py_scope.

(** ** The converter: [PDFToMarkdownConverter] *)

Module Converter.

(** The dictionaries built by [extract_text_from_pdf]. *)
Record structured_block := {
  sb_text : str;
  sb_bbox : spec_float * spec_float * spec_float * spec_float;
  sb_type : Z }.

Record page_record := {
  page_num : Z;
  page_text : str;
  width : spec_float;
  height : spec_float;
  blocks : list structured_block }.

Section WithEnvironment.

Context (E : environment).

(** [self.ollama_url] and [self.model]. *)
Variable ollama_url : str.
Definition model_name : str := lit "gemma3:4b".

(** *** PyMuPDF, [requests] and file primitives *)

Definition document_open (pdf_path : str) : M (list pdf_page) :=
  fun w =>
    match fitz_open E pdf_path with
    | Ok document =>
        (Ok document, with_open_documents (pdf_path :: open_documents w) w)
    | Raise e => (Raise e, w)
    end.

Definition document_close (pdf_path : str) : M unit :=
  fun w =>
    (Ok tt, with_open_documents (remove_one pdf_path (open_documents w)) w).

Definition requests_post (r : request) : M http_response :=
  fun w =>
    let reply := endpoint E (map fst (traffic w)) r in
    (reply, with_traffic (traffic w ++ [(r, reply)]) w).

(** [with open(path, "w", encoding="utf-8") as f: f.write(data)]: opening
    creates or truncates the file before anything is written. *)
Definition write_text_file (path : str) (data : json) : M unit :=
  fun w =>
    if writable E path then
      let truncated := with_files (<[path := []]> (files w)) w in
      match data with
      | JString s =>
          if existsb is_surrogate s then (Raise UnicodeEncodeError, truncated)
          else (Ok tt, with_files (<[path := s]> (files w)) w)
      | _ => (Raise TypeError, truncated)
      end
    else (Raise OSError, w).

(** *** [extract_text_from_pdf] *)

Definition structure_block (b : raw_block) : structured_block :=
  {| sb_text := strip (block_text b);
     sb_bbox := (x0 b, y0 b, x1 b, y1 b);
     sb_type := block_type b |}.

(** The loop over the blocks of a page.  Unpacking a block assigns its text
    to the variable [text], which also holds the text of the page. *)
Definition scan_block (st : str * list structured_block) (b : raw_block)
  : str * list structured_block :=
  let '(_, structured_blocks) := st in
  (block_text b, structured_blocks ++ [structure_block b]).

(** Body of [for page_num, page in enumerate(document)]. *)
Definition extract_page (pages : list page_record) (item : Z * pdf_page)
  : M (list page_record) :=
  let '(page_num, page) := item in
  text <- lift (get_text_text page) ;;
  let width := rect_width page in
  let height := rect_height page in
  blocks <- lift (get_text_blocks page) ;;
  let '(text, structured_blocks) := fold_left scan_block blocks (text, []) in
  ret (pages ++ [ {| page_num := page_num + 1;
                     page_text := text;
                     width := width;
                     height := height;
                     blocks := structured_blocks |} ]).

Definition extract_text_from_pdf (pdf_path : str) : M (list page_record) :=
  document <- document_open pdf_path ;;
  pages <- for_each extract_page (enumerate document) [] ;;
  document_close pdf_path ;;;
  ret pages.

(** *** [process_with_gemma] *)

Definition generate_request (content : str) (instr : instruction) : request :=
  {| url := ollama_url ++ lit "/api/generate";
     model := model_name;
     prompt_instruction := instr;
     prompt_content := content;
     stream := false |}.

Definition process_with_gemma (content : str) (instr : instruction) : M json :=
  response <- requests_post (generate_request content instr) ;;
  if status_code response =? 200 then
    body <- lift (decoded response) ;;
    lift (dict_get body (lit "response") (JString []))
  else
    raise (Exception (lit "Error processing with Gemma: " ++ text response)).

(** *** [convert_to_markdown] *)

(** Body of [for j, chunk in enumerate(chunks)]. *)
Definition process_chunk (page_num chunk_count : Z)
  (processed_chunks : list json) (item : Z * str) : M (list json) :=
  let '(j, chunk) := item in
  print (MsgProcessingChunk (j + 1) chunk_count) ;;;
  processed_chunk <-
    process_with_gemma chunk (ChunkInstruction page_num (j + 1) chunk_count) ;;
  ret (processed_chunks ++ [processed_chunk]).

(** Body of [for i, page in enumerate(pages)]. *)
Definition process_page (page_count : Z) (full_content : str)
  (item : Z * page_record) : M str :=
  let '(i, page) := item in
  print (MsgProcessingPage (i + 1) page_count) ;;;
  let page_text := page_text page in
  processed_content <-
    (if len page_text >? 8000 then
       let chunks := _chunk_text page_text default_max_chunk_size in
       processed_chunks <-
         for_each (process_chunk (page_num page) (len chunks))
                  (enumerate chunks) [] ;;
       combined_chunks <- lift (str_join blank_line processed_chunks) ;;
       process_with_gemma combined_chunks (CombineInstruction (page_num page))
     else
       process_with_gemma page_text (PageInstruction (page_num page))) ;;
  addition <- lift (as_str processed_content) ;;
  ret (full_content ++ (addition ++ blank_line)).

(** The loop over the pages, which builds [full_content]. *)
Definition assemble_pages (pages : list page_record) : M str :=
  for_each (process_page (len pages)) (enumerate pages) [].

(** Body of [for i in range(0, len(full_content), section_size - overlap)]. *)
Definition process_section (full_content : str) (section_size overlap : Z)
  (final_content : str) (i : Z) : M str :=
  let section := slice full_content i (i + section_size) in
  processed_section <-
    process_with_gemma section
      (SectionInstruction (i / (section_size - overlap) + 1)) ;;
  addition <- lift (as_str processed_section) ;;
  ret (final_content ++ addition).

(** The final pass over [full_content]. *)
Definition finalize (full_content : str) : M json :=
  print MsgFinalizing ;;;
  if len full_content >? 12000 then
    print MsgLargeDocument ;;;
    let section_size := 10000 in
    let overlap := 1000 in
    final_content <-
      for_each (process_section full_content section_size overlap)
               (range 0 (len full_content) (section_size - overlap)) [] ;;
    process_with_gemma final_content BoundaryCleanInstruction
  else
    process_with_gemma full_content FinalInstruction.

(** [if output_path:] followed by the write. *)
Definition save (output_path : option str) (final_markdown : json) : M unit :=
  match output_path with
  | Some path =>
      if truthy path then
        write_text_file path final_markdown ;;;
        print (MsgSaved path)
      else ret tt
  | None => ret tt
  end.

Definition convert_to_markdown (pdf_path : str) (output_path : option str)
  : M json :=
  print (MsgExtracting pdf_path) ;;;
  pages <- extract_text_from_pdf pdf_path ;;
  full_content <- assemble_pages pages ;;
  final_markdown <- finalize full_content ;;
  save output_path final_markdown ;;;
  ret final_markdown.

End WithEnvironment.

End Converter.

Import Converter.

(** ** Vocabulary of the properties *)

Module Props.

(** The two separators the chunker removes: a blank line between
    paragraphs, a single space between sentences. *)
Inductive separator := BlankLine | Space.

Definition separator_text (sp : separator) : str :=
  match sp with
  | BlankLine => blank_line
  | Space => [SP]
  end.

(** Rejoining chunks with one separator per boundary. *)
Fixpoint rejoin (seps : list separator) (chunks : list str) : str :=
  match chunks with
  | [] => []
  | c :: cs =>
      match cs, seps with
      | [], _ => c
      | _ :: _, sp :: seps' => c ++ separator_text sp ++ rejoin seps' cs
      | _ :: _, [] => c ++ rejoin [] cs
      end
  end.

(** The chunks can be rejoined to [text]. *)
Definition rejoins_to (chunks : list str) (text : str) : Prop :=
  exists seps, length seps = pred (length chunks) /\ rejoin seps chunks = text.

(** [c] is one sentence of a paragraph of [text], longer than the bound. *)
Definition oversized_sentence (text : str) (max_size : Z) (c : str) : Prop :=
  exists p, In p (split_blank text) /\ In c (split_sentences p)
            /\ len c > max_size.

(** The size bound of the chunker. *)
Definition size_bounded (text : str) (max_size : Z) (c : str) : Prop :=
  len c <= max_size \/ oversized_sentence text max_size c.

(** The endpoint answers with status 200 and a JSON object whose
    [response] field is the string [out]; a missing field counts as the
    empty string. *)
Definition answers_with (reply : result http_response) (out : str) : Prop :=
  exists r fields,
    reply = Ok r /\ status_code r = 200 /\ decoded r = Ok (JObject fields)
    /\ (lookup_field (lit "response") fields = Some (JString out)
        \/ lookup_field (lit "response") fields = None /\ out = []).

(** An endpoint that answers every request in that way. *)
Definition well_behaved (E : environment) : Prop :=
  forall history r, exists out, answers_with (endpoint E history r) out.

(** The endpoint answered with a status other than 200. *)
Definition failed (reply : result http_response) : Prop :=
  exists r, reply = Ok r /\ status_code r <> 200.

(** The exception [process_with_gemma] raises for a response. *)
Definition generation_error (r : http_response) : exn :=
  Exception (lit "Error processing with Gemma: " ++ text r).

(** What [process_with_gemma] makes of the endpoint's reply. *)
Definition answer (reply : result http_response) : result json :=
  match reply with
  | Raise e => Raise e
  | Ok response =>
      if status_code response =? 200 then
        match decoded response with
        | Ok body => dict_get body (lit "response") (JString [])
        | Raise e => Raise e
        end
      else Raise (generation_error response)
  end.

(** The exchanges added to the traffic between two worlds. *)
Definition new_traffic (w w' : world) : list (request * result http_response) :=
  drop (length (traffic w)) (traffic w').

(** The [k]-th window of the sectioning pass, [k] counted from 0: the
    slice of 10000 characters that starts at offset [9000 * k]. *)
Definition window (full_content : str) (k : nat) : str :=
  slice full_content (9000 * Z.of_nat k) (9000 * Z.of_nat k + 10000).

(** The number of windows: the offsets [0, 9000, 18000, ...] below the
    length. *)
Definition window_count (full_content : str) : nat :=
  Z.to_nat ((len full_content + 8999) / 9000).

(** The exchanges of the sectioning loop from window [k] on, and the
    outputs they gave: one request per window, numbered from 1, in
    order. *)
Inductive sections_run (ollama_url full_content : str)
  : nat -> list (request * result http_response) -> list str -> Prop :=
| sections_done k : sections_run ollama_url full_content k [] []
| sections_next k reply out tr outs :
    answers_with reply out ->
    sections_run ollama_url full_content (S k) tr outs ->
    sections_run ollama_url full_content k
      ((generate_request ollama_url (window full_content k)
          (SectionInstruction (Z.of_nat k + 1)), reply) :: tr)
      (out :: outs).

(** The final pass sent exactly one request: the whole buffer with the
    general instruction. *)
Definition direct_pass (ollama_url full_content : str) (w w' : world) : Prop :=
  exists reply,
    new_traffic w w' =
    [(generate_request ollama_url full_content FinalInstruction, reply)].

(** The final pass sent a section request. *)
Definition sectioned_pass (ollama_url : str) (w w' : world) : Prop :=
  exists k content reply,
    In (generate_request ollama_url content (SectionInstruction k), reply)
       (new_traffic w w').

(** Both extractions succeed on the page. *)
Definition readable (page : pdf_page) : Prop :=
  exists t bs, get_text_text page = Ok t /\ get_text_blocks page = Ok bs.

(** The value of the variable [text] after the loop over the blocks: the
    text of the last block, or the text of the page when it has no block. *)
Definition extracted_text (t : str) (bs : list raw_block) : str :=
  match last bs with
  | Some b => block_text b
  | None => t
  end.

(** The records extracted from the pages of a document, the first of them
    being page [i] counted from 0: one record per page, in order, numbered
    from [i + 1]. *)
Inductive pages_extracted
  : nat -> list pdf_page -> list page_record -> Prop :=
| extracted_done i : pages_extracted i [] []
| extracted_next i page document t bs pages :
    get_text_text page = Ok t ->
    get_text_blocks page = Ok bs ->
    pages_extracted (S i) document pages ->
    pages_extracted i (page :: document)
      ({| page_num := Z.of_nat i + 1;
          page_text := extracted_text t bs;
          width := rect_width page;
          height := rect_height page;
          blocks := map structure_block bs |} :: pages).

(** The exchanges for the chunks of a page from chunk [j] on, and the
    outputs they gave: one request per chunk, in the order of the chunks. *)
Inductive chunks_run (ollama_url : str) (page_num chunk_count : Z)
  : nat -> list str -> list (request * result http_response) -> list str
    -> Prop :=
| chunks_done j : chunks_run ollama_url page_num chunk_count j [] [] []
| chunks_next j chunk chunks reply out tr outs :
    answers_with reply out ->
    chunks_run ollama_url page_num chunk_count (S j) chunks tr outs ->
    chunks_run ollama_url page_num chunk_count j (chunk :: chunks)
      ((generate_request ollama_url chunk
          (ChunkInstruction page_num (Z.of_nat j + 1) chunk_count), reply)
         :: tr)
      (out :: outs).

(** The exchanges for one page and the output of the page: a short page is
    sent whole; a long page is sent chunk by chunk, and the outputs of the
    chunks, joined by blank lines in the same order, are sent once more. *)
Inductive page_run (ollama_url : str)
  : page_record -> list (request * result http_response) -> str -> Prop :=
| page_direct page reply out :
    len (page_text page) <= 8000 ->
    answers_with reply out ->
    page_run ollama_url page
      [(generate_request ollama_url (page_text page)
          (PageInstruction (page_num page)), reply)]
      out
| page_chunked page tr outs reply out :
    len (page_text page) > 8000 ->
    chunks_run ollama_url (page_num page)
      (len (_chunk_text (page_text page) 8000)) 0
      (_chunk_text (page_text page) 8000) tr outs ->
    answers_with reply out ->
    page_run ollama_url page
      (tr ++ [(generate_request ollama_url (join blank_line outs)
                 (CombineInstruction (page_num page)), reply)])
      out.

(** The exchanges for a list of pages and the buffer they build: the
    exchanges of the pages one after the other, and the outputs of the
    pages, each followed by a blank line, in the same order. *)
Inductive pages_run (ollama_url : str)
  : list page_record -> list (request * result http_response) -> str
    -> Prop :=
| pages_done : pages_run ollama_url [] [] []
| pages_next page pages tr out tr' full :
    page_run ollama_url page tr out ->
    pages_run ollama_url pages tr' full ->
    pages_run ollama_url (page :: pages) (tr ++ tr')
      (out ++ blank_line ++ full).

(** Inputs on which chunking loses nothing: no paragraph is empty, and a
    paragraph that has to be split into sentences has non-empty sentences
    separated by exactly one space, the first one shorter than the bound. *)
Definition plain_sentences (max_size : Z) (p : str) : Prop :=
  join [SP] (split_sentences p) = p
  /\ Forall (fun s => s <> []) (split_sentences p)
  /\ (forall s1, head (split_sentences p) = Some s1 -> len s1 < max_size).

Definition plain_paragraph (max_size : Z) (p : str) : Prop :=
  p <> [] /\ (len p > max_size -> plain_sentences max_size p).

End Props.

Import Props.

(** ** Concrete worlds *)

Module Scenario.

(** A world in which nothing has happened yet. *)
Definition fresh : world :=
  {| open_documents := []; traffic := []; files := ∅; stdout := [] |}.

(** An environment in which every path opens as [document] and the
    endpoint gives the same [reply] to every request. *)
Definition fixed (document : list pdf_page) (reply : result http_response)
  : environment :=
  {| fitz_open := fun _ => Ok document;
     endpoint := fun _ _ => reply;
     writable := fun _ => true |}.

Definition zero : spec_float := S754_zero false.

(** A page without blocks whose plain text is [t]. *)
Definition text_page (t : str) : pdf_page :=
  {| get_text_text := Ok t; rect_width := zero; rect_height := zero;
     get_text_blocks := Ok [] |}.

(** A page whose text cannot be extracted. *)
Definition damaged_page : pdf_page :=
  {| get_text_text := Raise (FitzError (lit "cannot load page"));
     rect_width := zero; rect_height := zero;
     get_text_blocks := Raise (FitzError (lit "cannot load page")) |}.

(** Status 200 with the JSON object [{"response": out}]. *)
Definition generated (out : str) : http_response :=
  {| status_code := 200;
     text := lit "{" ++ [34%N] ++ lit "response" ++ [34%N] ++ lit ": "
               ++ [34%N] ++ out ++ [34%N] ++ lit "}";
     decoded := Ok (JObject [(lit "response", JString out)]) |}.

(** Status 200 with the JSON object [{}]. *)
Definition empty_object : http_response :=
  {| status_code := 200; text := lit "{}"; decoded := Ok (JObject []) |}.

(** Status 200 with a body that is not JSON. *)
Definition not_json : http_response :=
  {| status_code := 200; text := lit "<html>busy</html>";
     decoded := Raise JSONDecodeError |}.

(** Status 500 with a plain-text body. *)
Definition server_error : http_response :=
  {| status_code := 500; text := lit "model not loaded";
     decoded := Raise JSONDecodeError |}.

Definition url : str := lit "http://localhost:11434".
Definition pdf : str := lit "in.pdf".
Definition md : str := lit "in.md".

End Scenario.

(** ** Loop invariants *)

Module Invariants.

(** A computation that leaves the files alone and stops at the first
    request the endpoint answers with a status other than 200, raising the
    error that carries its body. *)
Definition disciplined {A} (m : M A) : Prop :=
  forall w,
    files (snd (m w)) = files w
    /\ exists tr,
        traffic (snd (m w)) = traffic w ++ tr
        /\ (Forall (fun ex => ~ failed (snd ex)) tr
            \/ exists tr0 req resp,
                tr = tr0 ++ [(req, Ok resp)]
                /\ Forall (fun ex => ~ failed (snd ex)) tr0
                /\ status_code resp <> 200
                /\ fst (m w) = Raise (generation_error resp)).

(** The same, with the files left alone only when a request has failed. *)
Definition aborting {A} (m : M A) : Prop :=
  forall w,
    exists tr,
      traffic (snd (m w)) = traffic w ++ tr
      /\ (Forall (fun ex => ~ failed (snd ex)) tr
          \/ exists tr0 req resp,
              tr = tr0 ++ [(req, Ok resp)]
              /\ Forall (fun ex => ~ failed (snd ex)) tr0
              /\ status_code resp <> 200
              /\ fst (m w) = Raise (generation_error resp)
              /\ files (snd (m w)) = files w).

(** The chunk [c] has been appended to [chunks]. *)
Definition emitted (c : str) (st : state) : Prop := In c (fst st).

(** Something has been produced: a chunk, or a non-empty accumulator. *)
Definition started (st : state) : Prop := fst st <> [] \/ snd st <> [].

(** Every emitted chunk and the accumulator respect the bound. *)
Definition all_bounded (text : str) (max_size : Z) (st : state) : Prop :=
  Forall (size_bounded text max_size) (fst st)
  /\ size_bounded text max_size (snd st).

(** The text spelled by the emitted chunks, each followed by its
    separator. *)
Fixpoint spelled (seps : list separator) (chunks : list str) : str :=
  match chunks, seps with
  | c :: cs, sp :: seps' => c ++ separator_text sp ++ spelled seps' cs
  | _, _ => []
  end.

(** The emitted chunks spell [T]. *)
Definition spells (T : str) (chunks : list str) : Prop :=
  exists seps, length seps = length chunks /\ spelled seps chunks = T.

(** The chunks and a non-empty accumulator spell [T]. *)
Definition spelling (T : str) (st : state) : Prop :=
  snd st <> [] /\ exists seps,
    length seps = length (fst st) /\ spelled seps (fst st) ++ snd st = T.

End Invariants.

Import Invariants.

(** ** The command line: [main] *)

Module Cli.

Definition SLASH : N := 47%N.
Definition DOT : N := 46%N.

(** [s.rfind(c)] for a single character: the index of its last
    occurrence, or -1. *)
Fixpoint rfind (c : N) (s : str) : Z :=
  match s with
  | [] => -1
  | x :: s' =>
      let r := rfind c s' in
      if 0 <=? r then r + 1 else if (x =? c)%N then 0 else -1
  end.

(** [os.path.splitext(p)] on POSIX: the extension starts at the last dot
    of the last path component, unless only dots come before it there. *)
Definition splitext (p : str) : str * str :=
  let sepIndex := rfind SLASH p in
  let dotIndex := rfind DOT p in
  if (dotIndex >? sepIndex)
     && existsb (fun c => negb (c =? DOT)%N) (slice p (sepIndex + 1) dotIndex)
  then (slice p 0 dotIndex, drop (Z.to_nat dotIndex) p)
  else (p, []).

(** The output path [main] hands to [convert_to_markdown]: [args.output],
    or the PDF path with its extension replaced by [.md] when the option
    is absent or empty. *)
Definition output_path_of (pdf_path : str) (output : option str) : str :=
  match output with
  | Some o => if truthy o then o else fst (splitext pdf_path) ++ lit ".md"
  | None => fst (splitext pdf_path) ++ lit ".md"
  end.

End Cli.

Import Cli.

(** ** Vocabulary of the further properties *)

Module More.

(** The characters of a string that are not white space, in order. *)
Definition ink (s : str) : str := List.filter (fun c => negb (isspace c)) s.

(** The text that is in the chunks and in the accumulator. *)
Definition written (st : state) : str := concat (fst st) ++ snd st.

(** A list of pieces in which only the last one may be empty. *)
Inductive open_ended : list str -> Prop :=
| open_last x : open_ended [x]
| open_cons x l : x <> [] -> open_ended l -> open_ended (x :: l).

(** Some paragraph longer than the bound begins with a sentence at least
    as long as the bound. *)
Definition long_first_sentence (text : str) (max_size : Z) : Prop :=
  exists p s1,
    In p (split_blank text) /\ len p > max_size
    /\ head (split_sentences p) = Some s1 /\ max_size <= len s1.

(** A string without white space at either end. *)
Definition trimmed (s : str) : Prop :=
  (forall c, head s = Some c -> isspace c = false)
  /\ (forall c, last s = Some c -> isspace c = false).

(** A computation all of whose exchanges satisfy [P]. *)
Definition sends {A} (P : request * result http_response -> Prop) (m : M A)
  : Prop :=
  forall w, exists tr,
    traffic (snd (m w)) = traffic w ++ tr /\ Forall P tr.

(** The request goes to the generation endpoint of [ollama_url], for the
    model of the converter, without streaming. *)
Definition well_addressed (ollama_url : str)
  (ex : request * result http_response) : Prop :=
  url (fst ex) = ollama_url ++ lit "/api/generate"
  /\ model (fst ex) = lit "gemma3:4b"
  /\ stream (fst ex) = false.

(** The records a conversion works on: what the extractor returns after
    the first progress line. *)
Definition records_of (E : environment) (pdf_path : str) (w : world)
  : list page_record :=
  match fst (extract_text_from_pdf E pdf_path
               (snd (print (MsgExtracting pdf_path) w))) with
  | Ok pages => pages
  | Raise _ => []
  end.

(** The size of the content of a request, by kind of instruction.  A page
    request carries the text of the page of the document it names, of at
    most 8000 characters; a chunk request carries a chunk of the page it
    names, of at most 8000 characters unless it is a single sentence of
    that page; a section request carries at most 10000 characters. *)
Definition within_budget (pages : list page_record)
  (ex : request * result http_response) : Prop :=
  match prompt_instruction (fst ex) with
  | PageInstruction n =>
      exists page,
        In page pages /\ page_num page = n
        /\ prompt_content (fst ex) = page_text page
        /\ len (page_text page) <= 8000
  | ChunkInstruction n _ _ =>
      exists page,
        In page pages /\ page_num page = n
        /\ In (prompt_content (fst ex)) (_chunk_text (page_text page) 8000)
        /\ size_bounded (page_text page) 8000 (prompt_content (fst ex))
  | SectionInstruction _ => len (prompt_content (fst ex)) <= 10000
  | _ => True
  end.

(** The call behind the exchange returned a value. *)
Definition answered (ex : request * result http_response) : Prop :=
  exists v, answer (snd ex) = Ok v.

(** A computation that leaves the files alone and stops at the first
    exchange for which [process_with_gemma] raises, with that error. *)
Definition strict {A} (m : M A) : Prop :=
  forall w,
    files (snd (m w)) = files w
    /\ exists tr,
        traffic (snd (m w)) = traffic w ++ tr
        /\ (Forall answered tr
            \/ exists tr0 req reply e,
                tr = tr0 ++ [(req, reply)]
                /\ Forall answered tr0
                /\ answer reply = Raise e
                /\ fst (m w) = Raise e).

(** The same, with the files left alone only when a call has raised. *)
Definition stopping {A} (m : M A) : Prop :=
  forall w,
    exists tr,
      traffic (snd (m w)) = traffic w ++ tr
      /\ (Forall answered tr
          \/ exists tr0 req reply e,
              tr = tr0 ++ [(req, reply)]
              /\ Forall answered tr0
              /\ answer reply = Raise e
              /\ fst (m w) = Raise e
              /\ files (snd (m w)) = files w).

(** What a conversion can do to the files: nothing, when it raises or has
    no output path; or write the returned Markdown to the output path; or
    leave that file empty when the write fails after the file has been
    opened. *)
Definition file_effect (output_path : option str) (m : M json) : Prop :=
  forall w,
    (files (snd (m w)) = files w
     /\ ((exists e, fst (m w) = Raise e)
         \/ output_path = None \/ output_path = Some []))
    \/ exists path,
         output_path = Some path /\ path <> []
         /\ ((exists s, fst (m w) = Ok (JString s)
                        /\ files (snd (m w)) = <[path := s]> (files w))
             \/ (exists e, fst (m w) = Raise e
                           /\ files (snd (m w)) = <[path := []]> (files w))).

End More.

Import More.

(** ** Facts about the string primitives *)

Section StringFacts.

Lemma len_nonneg {A} (xs : list A) : 0 <= len xs.
Proof. unfold len. lia. Qed.

Lemma len_nil {A} : len (@nil A) = 0.
Proof. reflexivity. Qed.

Lemma len_app {A} (xs ys : list A) : len (xs ++ ys) = len xs + len ys.
Proof. unfold len. rewrite length_app. lia. Qed.

Lemma truthy_true (s : str) : truthy s = true <-> s <> [].
Proof. destruct s; simpl; split; congruence. Qed.

Lemma truthy_false (s : str) : truthy s = false <-> s = [].
Proof. destruct s; simpl; split; congruence. Qed.

Lemma cons_first_nonempty (c : N) (ps : list str) : cons_first c ps <> [].
Proof. destruct ps; discriminate. Qed.

Lemma split_blank_cons (c c' : N) (s : str) :
  split_blank (c :: c' :: s) =
  if ((c =? LF) && (c' =? LF))%N then [] :: split_blank s
  else cons_first c (split_blank (c' :: s)).
Proof. reflexivity. Qed.

Lemma split_blank_nonempty (s : str) : split_blank s <> [].
Proof.
  destruct s as [|c [|c' s]]; [discriminate | discriminate |].
  rewrite split_blank_cons.
  destruct ((c =? LF) && (c' =? LF))%N;
    [discriminate | apply cons_first_nonempty].
Qed.

Lemma join_cons (sep p : str) (ps : list str) :
  ps <> [] -> join sep (p :: ps) = p ++ sep ++ join sep ps.
Proof. destruct ps; [congruence | reflexivity]. Qed.

Lemma join_cons_first (sep : str) (c : N) (ps : list str) :
  ps <> [] -> join sep (cons_first c ps) = c :: join sep ps.
Proof. destruct ps as [|p [|q ps]]; [congruence | reflexivity | reflexivity]. Qed.

(** [join] written with every later piece preceded by the separator. *)
Lemma join_concat (sep p : str) (ps : list str) :
  join sep (p :: ps) = p ++ concat (map (fun q => sep ++ q) ps).
Proof.
  revert p. induction ps as [|q ps IH]; intros p.
  - simpl. now rewrite app_nil_r.
  - rewrite join_cons by discriminate. rewrite IH. simpl.
    now rewrite <- app_assoc.
Qed.

(** Splitting at blank lines loses nothing. *)
Lemma join_split_blank (s : str) : join blank_line (split_blank s) = s.
Proof.
  remember (length s) as n eqn:Hn.
  revert s Hn. induction n as [n IH] using lt_wf_ind. intros s Hn.
  destruct s as [|c [|c' s]]; [reflexivity | reflexivity |].
  rewrite split_blank_cons.
  destruct ((c =? LF) && (c' =? LF))%N eqn:Hsep.
  - apply andb_true_iff in Hsep as [Hc Hc'].
    apply N.eqb_eq in Hc, Hc'. subst c c'.
    rewrite join_cons by apply split_blank_nonempty.
    rewrite (IH (length s)); [reflexivity | simpl in Hn; lia | reflexivity].
  - rewrite join_cons_first by apply split_blank_nonempty.
    rewrite (IH (length (c' :: s))); [reflexivity | simpl in *; lia | reflexivity].
Qed.

(** A non-empty string starts with a non-empty sentence: the pattern needs
    a terminator before the white space it matches. *)
Lemma split_sentences_head (c : N) (s : str) :
  exists s1 rest, split_sentences (c :: s) = (c :: s1) :: rest.
Proof.
  unfold split_sentences. cbn [split_scan andb].
  destruct (split_scan (Text (is_terminator c)) s) as [|p ps]; simpl; eauto.
Qed.

Lemma split_scan_nonempty (st : scan) (s : str) : split_scan st s <> [].
Proof.
  revert st. induction s as [|c s IH]; intros st; simpl; [discriminate|].
  destruct st as [after|].
  - destruct (after && isspace c); [discriminate|].
    apply cons_first_nonempty.
  - destruct (isspace c); [apply IH | apply cons_first_nonempty].
Qed.

Lemma split_sentences_nonempty (s : str) : split_sentences s <> [].
Proof. apply split_scan_nonempty. Qed.

End StringFacts.

(** ** The chunker *)

Section ChunkerFacts.

Variable max_size : Z.

Local Abbreviation step_s := (add_sentence max_size).
Local Abbreviation step_p := (add_paragraph max_size).

(** An invariant that every loop body keeps holds after the loop. *)
Lemma fold_left_invariant {S A} (f : S -> A -> S) (I : S -> Prop)
  (P : A -> Prop) (xs : list A) (st : S) :
  (forall st x, I st -> P x -> I (f st x)) ->
  Forall P xs -> I st -> I (fold_left f xs st).
Proof.
  intros Hstep. revert st.
  induction xs as [|x xs IH]; intros st HP HI; simpl; [assumption|].
  inversion HP; subst. apply IH; auto.
Qed.

Lemma fold_left_invariant' {S A} (f : S -> A -> S) (I : S -> Prop)
  (xs : list A) (st : S) :
  (forall st x, I st -> I (f st x)) -> I st -> I (fold_left f xs st).
Proof.
  intros Hstep HI.
  apply (fold_left_invariant f I (fun _ => True)); auto.
  apply List.Forall_forall. auto.
Qed.

(** *** Chunks are only ever appended *)

Lemma add_sentence_emitted c st s : emitted c st -> emitted c (step_s st s).
Proof.
  destruct st as [chunks cur]. unfold emitted, add_sentence. simpl.
  destruct (_ <=? _); simpl; [auto|]. intros H. apply in_or_app. auto.
Qed.

Lemma add_sentences_emitted c st ss :
  emitted c st -> emitted c (fold_left step_s ss st).
Proof.
  apply fold_left_invariant'. intros; now apply add_sentence_emitted.
Qed.

Lemma add_paragraph_emitted c st p : emitted c st -> emitted c (step_p st p).
Proof.
  destruct st as [chunks cur]. unfold emitted, add_paragraph. simpl.
  intros H. destruct (_ <=? _); simpl; [auto|].
  assert (Hc : In c (if truthy cur then chunks ++ [cur] else chunks)).
  { destruct (truthy cur); [apply in_or_app|]; auto. }
  destruct (_ >? _); simpl; [|auto].
  now apply add_sentences_emitted.
Qed.

Lemma add_paragraphs_emitted c st ps :
  emitted c st -> emitted c (fold_left step_p ps st).
Proof.
  apply fold_left_invariant'. intros; now apply add_paragraph_emitted.
Qed.

Lemma flush_emitted c st : emitted c st -> In c (flush st).
Proof.
  destruct st as [chunks cur]. unfold emitted, flush. simpl.
  destruct (truthy cur); [intros; apply in_or_app|]; auto.
Qed.

(** *** When the result is empty *)

Lemma add_sentence_started st s : started st -> started (step_s st s).
Proof.
  destruct st as [chunks cur]. unfold started, add_sentence. simpl.
  destruct (_ <=? _); simpl.
  - intros [H|H]; [auto|right].
    destruct cur; [congruence | simpl; discriminate].
  - intros _. left. destruct chunks; discriminate.
Qed.

Lemma add_sentences_started st ss :
  started st -> started (fold_left step_s ss st).
Proof. apply fold_left_invariant'. apply add_sentence_started. Qed.

Lemma add_first_sentence_started chunks s :
  s <> [] \/ max_size < 0 -> started (step_s (chunks, []) s).
Proof.
  unfold started, add_sentence. simpl. intros H.
  destruct (_ <=? _) eqn:Hfit; simpl.
  - destruct H as [H|H]; [auto|]. apply Z.leb_le in Hfit.
    pose proof (len_nonneg s). rewrite len_nil in Hfit. lia.
  - left. destruct chunks; discriminate.
Qed.

Lemma add_paragraph_started st p : started st -> started (step_p st p).
Proof.
  destruct st as [chunks cur]. unfold started, add_paragraph. simpl.
  intros H. destruct (_ <=? _); simpl.
  - destruct H as [H|H]; [auto|right].
    destruct cur; [congruence | simpl; discriminate].
  - assert (Hc : (if truthy cur then chunks ++ [cur] else chunks) <> []).
    { destruct (truthy cur) eqn:Ht.
      - destruct chunks; discriminate.
      - apply truthy_false in Ht. destruct H; congruence. }
    destruct (_ >? _); simpl; [|auto].
    apply add_sentences_started. now left.
Qed.

Lemma add_paragraphs_started st ps :
  started st -> started (fold_left step_p ps st).
Proof. apply fold_left_invariant'. apply add_paragraph_started. Qed.

Lemma add_paragraph_starts st p :
  p <> [] \/ max_size < 0 -> started (step_p st p).
Proof.
  destruct st as [chunks cur]. intros H. unfold add_paragraph.
  destruct (_ <=? _) eqn:Hfit.
  - right. simpl. destruct H as [H|H].
    + destruct p; [congruence|]. now destruct (truthy cur), cur.
    + apply Z.leb_le in Hfit.
      pose proof (len_nonneg cur). pose proof (len_nonneg p). lia.
  - destruct (_ >? _) eqn:Hlong.
    + destruct (split_sentences p) as [|s1 rest] eqn:Hss.
      { now apply split_sentences_nonempty in Hss. }
      simpl. apply add_sentences_started. apply add_first_sentence_started.
      destruct H as [H|H]; [left|now right].
      destruct p as [|c p]; [congruence|].
      destruct (split_sentences_head c p) as (s1' & rest' & Heq).
      rewrite Heq in Hss. inversion Hss. discriminate.
    + right. simpl. destruct H as [H|H]; [assumption|].
      rewrite Z.gtb_ltb in Hlong. apply Z.ltb_ge in Hlong. pose proof (len_nonneg p). lia.
Qed.

Lemma flush_started st : started st -> flush st <> [].
Proof.
  destruct st as [chunks cur]. unfold started, flush. simpl.
  destruct (truthy cur) eqn:Ht.
  - intros _. destruct chunks; discriminate.
  - apply truthy_false in Ht. intros [H|H]; congruence.
Qed.

Lemma add_empty_paragraph :
  0 <= max_size -> step_p ([], []) [] = ([], []).
Proof.
  intros Hmax. unfold add_paragraph. destruct (_ <=? _); [reflexivity|].
  simpl. rewrite len_nil.
  destruct (0 >? max_size) eqn:Hgt; [|reflexivity].
  apply Z.gtb_lt in Hgt. lia.
Qed.

Lemma add_empty_paragraphs ps :
  0 <= max_size -> Forall (fun p => p = []) ps ->
  fold_left step_p ps ([], []) = ([], []).
Proof.
  intros Hmax. induction 1 as [|p ps Hp _ IH]; [reflexivity|].
  subst p. cbn [fold_left]. now rewrite add_empty_paragraph.
Qed.

End ChunkerFacts.

Section ChunkerBounds.

Variables (text : str) (max_size : Z).
Hypothesis max_size_nonneg : 0 <= max_size.

Local Abbreviation bounded := (size_bounded text max_size).
Local Abbreviation all_bounded := (Invariants.all_bounded text max_size).

Lemma nil_bounded : bounded [].
Proof. left. now rewrite len_nil. Qed.

Lemma add_sentence_bounded p st s :
  In p (split_blank text) -> all_bounded st -> In s (split_sentences p) ->
  all_bounded (add_sentence max_size st s).
Proof.
  destruct st as [chunks cur]. intros Hp [Hchunks Hcur] Hs.
  unfold add_sentence. destruct (_ <=? _) eqn:Hfit; split; simpl in *.
  - assumption.
  - left. apply Z.leb_le in Hfit.
    destruct (truthy cur); rewrite ?len_app in *;
      change (len [SP]) with 1; pose proof (len_nonneg cur); lia.
  - apply Forall_app. split; [assumption | now constructor].
  - destruct (Z_le_gt_dec (len s) max_size) as [Hle|Hgt]; [now left|].
    right. exists p. auto.
Qed.

Lemma add_paragraph_bounded st p :
  all_bounded st -> In p (split_blank text) ->
  all_bounded (add_paragraph max_size st p).
Proof.
  destruct st as [chunks cur]. intros [Hchunks Hcur] Hp.
  unfold add_paragraph. destruct (_ <=? _) eqn:Hfit.
  - split; simpl in *; [assumption|]. left. apply Z.leb_le in Hfit.
    destruct (truthy cur); rewrite ?len_app in *;
      change (len blank_line) with 2; pose proof (len_nonneg cur); lia.
  - assert (Hflushed : Forall bounded
                         (if truthy cur then chunks ++ [cur] else chunks)).
    { simpl in *. destruct (truthy cur); [|assumption].
      apply Forall_app. split; [assumption | now constructor]. }
    destruct (_ >? _) eqn:Hlong.
    + apply (fold_left_invariant _ all_bounded
               (fun s => In s (split_sentences p))).
      * intros st s Hst Hs. now apply (add_sentence_bounded p).
      * apply List.Forall_forall. auto.
      * split; [assumption | apply nil_bounded].
    + split; simpl; [assumption|]. left.
      rewrite Z.gtb_ltb in Hlong. now apply Z.ltb_ge in Hlong.
Qed.

Lemma chunk_text_bounded : Forall bounded (_chunk_text text max_size).
Proof.
  unfold _chunk_text.
  assert (H : all_bounded (fold_left (add_paragraph max_size)
                             (split_blank text) ([], []))).
  { apply (fold_left_invariant _ all_bounded
             (fun p => In p (split_blank text))).
    - apply add_paragraph_bounded.
    - apply List.Forall_forall. auto.
    - split; [constructor | apply nil_bounded]. }
  destruct (fold_left _ _ _) as [chunks cur]. destruct H as [Hchunks Hcur].
  unfold flush. simpl in *. destruct (truthy cur); [|assumption].
  apply Forall_app. split; [assumption | now constructor].
Qed.

End ChunkerBounds.

(** *** Claims about the chunker *)

(** C2: for every text and every maximum chunk size (a size, so not
    negative), every chunk returned by [_chunk_text text max_size] has
    length at most [max_size] or is, unchanged, one sentence of a paragraph
    of [text] that is itself longer than [max_size]. *)
Theorem chunk_size_bound (text : str) (max_size : Z) (c : str) :
  0 <= max_size ->
  In c (_chunk_text text max_size) ->
  size_bounded text max_size c.
Proof.
  intros Hmax Hc.
  pose proof (chunk_text_bounded text max_size Hmax) as H.
  rewrite List.Forall_forall in H. auto.
Qed.

(** The bound in use: a paragraph of seven characters, bound four. *)
Lemma chunk_size_bound_witness :
  0 <= 4 /\ In (lit "Yo") (_chunk_text (lit "Hi.  Yo") 4)
  /\ size_bounded (lit "Hi.  Yo") 4 (lit "Yo").
Proof.
  assert (H1 : 0 <= 4) by lia.
  assert (H2 : In (lit "Yo") (_chunk_text (lit "Hi.  Yo") 4))
    by (vm_compute; auto).
  exact (conj H1 (conj H2 (chunk_size_bound _ _ _ H1 H2))).
Defined.

(** C3, as amended: [_chunk_text] returns the empty list exactly when
    [max_size] is non-negative and every paragraph of the text is empty,
    that is, when the text is empty or made of blank-line separators only.
    Every other input gives at least one chunk. *)
Theorem chunk_text_empty_iff (text : str) (max_size : Z) :
  _chunk_text text max_size = [] <->
  0 <= max_size /\ Forall (fun p => p = []) (split_blank text).
Proof.
  unfold _chunk_text. split.
  - intros Hempty.
    assert (Hstart : forall l1 p l2,
               split_blank text = l1 ++ p :: l2 ->
               p <> [] \/ max_size < 0 -> False).
    { intros l1 p l2 Heq Hp. revert Hempty.
      rewrite Heq, fold_left_app. cbn [fold_left].
      apply flush_started, add_paragraphs_started.
      now apply add_paragraph_starts. }
    split.
    + destruct (Z_lt_le_dec max_size 0) as [Hneg|]; [exfalso | assumption].
      destruct (split_blank text) as [|p ps] eqn:Hps.
      { now apply split_blank_nonempty in Hps. }
      apply (Hstart [] p ps); auto.
    + apply List.Forall_forall. intros p Hp.
      destruct p as [|c p]; [reflexivity | exfalso].
      apply in_split in Hp as (l1 & l2 & Heq).
      apply (Hstart l1 (c :: p) l2 Heq). now left.
  - intros [Hmax Hall]. now rewrite add_empty_paragraphs.
Qed.

(** C3 as stated fails: the text ["\n\n"] is not empty, yet
    [_chunk_text("\n\n")] with the default bound returns no chunk. *)
Lemma chunk_text_nonempty_counterexample :
  blank_line <> [] /\ _chunk_text blank_line default_max_chunk_size = [].
Proof. split; [discriminate | reflexivity]. Qed.

(** C9: when a paragraph longer than [max_size] begins with a sentence of
    length at least [max_size], the first turn of the sentence loop appends
    the empty accumulator to the chunks and carries the sentence forward,
    so the result of [_chunk_text] contains the empty string. *)
Theorem empty_chunk_emitted (text : str) (max_size : Z) (p s1 : str) :
  In p (split_blank text) ->
  len p > max_size ->
  head (split_sentences p) = Some s1 ->
  max_size <= len s1 ->
  (forall chunks,
      add_sentence max_size (chunks, []) s1 = (chunks ++ [[]], s1))
  /\ In [] (_chunk_text text max_size).
Proof.
  intros Hp Hlong Hhead Hs1.
  assert (Hfirst : forall chunks,
             add_sentence max_size (chunks, []) s1 = (chunks ++ [[]], s1)).
  { intros chunks. unfold add_sentence. rewrite len_nil.
    destruct (_ <=? _) eqn:Hfit; [|reflexivity].
    apply Z.leb_le in Hfit. lia. }
  split; [exact Hfirst|].
  apply in_split in Hp as (l1 & l2 & Heq).
  unfold _chunk_text. rewrite Heq, fold_left_app. cbn [fold_left].
  apply flush_emitted, add_paragraphs_emitted.
  destruct (fold_left _ l1 _) as [chunks cur].
  unfold add_paragraph.
  destruct (_ <=? _) eqn:Hfit.
  { apply Z.leb_le in Hfit. pose proof (len_nonneg cur). lia. }
  destruct (_ >? _) eqn:Hgt.
  2:{ rewrite Z.gtb_ltb in Hgt. apply Z.ltb_ge in Hgt. lia. }
  destruct (split_sentences p) as [|s rest]; [discriminate|].
  injection Hhead as ->. cbn [fold_left]. rewrite Hfirst.
  apply add_sentences_emitted. unfold emitted. simpl.
  apply in_or_app. right. now left.
Qed.

(** For some input the result does contain the empty string:
    [_chunk_text("abc", 2)] is [["", "abc"]]. *)
Lemma empty_chunk_emitted_witness :
  In [] (_chunk_text (lit "abc") 2).
Proof.
  refine (proj2 (empty_chunk_emitted (lit "abc") 2 (lit "abc") (lit "abc")
                   _ _ _ _)).
  - vm_compute. auto.
  - vm_compute. reflexivity.
  - reflexivity.
  - vm_compute. discriminate.
Defined.

(** *** Rejoining the chunks *)

Section ChunkerRoundTrip.

Variable max_size : Z.

Lemma spelled_snoc seps chunks sp c :
  length seps = length chunks ->
  spelled (seps ++ [sp]) (chunks ++ [c]) =
  spelled seps chunks ++ c ++ separator_text sp.
Proof.
  revert seps. induction chunks as [|c0 cs IH]; intros [|sp0 seps] Hlen;
    try discriminate; simpl.
  - now rewrite app_nil_r.
  - rewrite IH by (simpl in Hlen; lia). now rewrite <- !app_assoc.
Qed.

Lemma rejoin_snoc seps chunks cur :
  length seps = length chunks ->
  rejoin seps (chunks ++ [cur]) = spelled seps chunks ++ cur.
Proof.
  revert seps. induction chunks as [|c cs IH]; intros [|sp seps] Hlen;
    try discriminate; [reflexivity|].
  cbn [app spelled]. rewrite <- !app_assoc, <- IH by (simpl in Hlen; lia).
  destruct cs; reflexivity.
Qed.

Lemma spelling_flush T chunks cur sp :
  spelling T (chunks, cur) ->
  spells (T ++ separator_text sp) (chunks ++ [cur]).
Proof.
  intros (_ & seps & Hlen & Heq). simpl in *. exists (seps ++ [sp]). split.
  - rewrite !length_app. simpl. lia.
  - rewrite spelled_snoc by assumption. now rewrite <- Heq, <- !app_assoc.
Qed.

Lemma spells_start T chunks s :
  spells T chunks -> s <> [] -> spelling (T ++ s) (chunks, s).
Proof.
  intros (seps & Hlen & Heq) Hs. split; [assumption|].
  exists seps. simpl. now rewrite Heq.
Qed.

Lemma add_sentence_spelling T st s :
  spelling T st -> s <> [] ->
  spelling (T ++ [SP] ++ s) (add_sentence max_size st s).
Proof.
  destruct st as [chunks cur]. intros Hst Hs. unfold add_sentence.
  destruct (_ <=? _).
  - destruct Hst as (Hcur & seps & Hlen & Heq). simpl in *.
    apply truthy_true in Hcur as Ht. rewrite Ht. split.
    + destruct cur; [congruence | discriminate].
    + exists seps. simpl. split; [assumption|].
      now rewrite <- Heq, <- !app_assoc.
  - rewrite app_assoc. apply spells_start; [|assumption].
    apply (spelling_flush T chunks cur Space Hst).
Qed.

Lemma add_sentences_spelling ss : forall T st,
  spelling T st -> Forall (fun s => s <> []) ss ->
  spelling (T ++ concat (map (fun s => [SP] ++ s) ss))
           (fold_left (add_sentence max_size) ss st).
Proof.
  induction ss as [|s ss IH]; intros T st Hst Hss.
  - simpl. now rewrite app_nil_r.
  - inversion Hss; subst. cbn [fold_left map concat].
    rewrite app_assoc. apply IH; [|assumption].
    now apply add_sentence_spelling.
Qed.

(** The sentence loop on a paragraph with plain sentences. *)
Lemma split_paragraph_spelling T chunks p :
  spells T chunks -> plain_sentences max_size p ->
  spelling (T ++ p)
    (fold_left (add_sentence max_size) (split_sentences p) (chunks, [])).
Proof.
  intros HT (Hjoin & Hne & Hfirst).
  destruct (split_sentences p) as [|s1 ss] eqn:Hss.
  { now apply split_sentences_nonempty in Hss. }
  specialize (Hfirst s1 eq_refl). inversion Hne as [|? ? Hs1 Hrest].
  rewrite <- Hjoin, join_concat, app_assoc. cbn [fold_left].
  apply add_sentences_spelling; [|assumption].
  unfold add_sentence. rewrite len_nil.
  destruct (_ <=? _) eqn:Hfit.
  - now apply spells_start.
  - apply Z.leb_gt in Hfit. lia.
Qed.

(** The paragraph loop once the accumulator has been flushed. *)
Lemma new_chunk_spelling T chunks p :
  spells T chunks -> plain_paragraph max_size p ->
  spelling (T ++ p)
    (if len p >? max_size
     then fold_left (add_sentence max_size) (split_sentences p) (chunks, [])
     else (chunks, p)).
Proof.
  intros HT [Hne Hplain]. destruct (_ >? _) eqn:Hlong.
  - apply split_paragraph_spelling; [assumption|].
    apply Hplain. now apply Z.gtb_gt in Hlong.
  - now apply spells_start.
Qed.

Lemma first_paragraph_spelling chunks T p :
  spells T chunks -> plain_paragraph max_size p ->
  spelling (T ++ p) (add_paragraph max_size (chunks, []) p).
Proof.
  intros HT Hp. unfold add_paragraph. destruct (_ <=? _).
  - simpl. apply spells_start; [assumption | apply Hp].
  - now apply new_chunk_spelling.
Qed.

Lemma add_paragraph_spelling T st p :
  spelling T st -> plain_paragraph max_size p ->
  spelling (T ++ blank_line ++ p) (add_paragraph max_size st p).
Proof.
  destruct st as [chunks cur]. intros Hst Hp. unfold add_paragraph.
  pose proof Hst as (Hcur & seps & Hlen & Heq). cbn [fst snd] in *.
  apply truthy_true in Hcur as Ht. rewrite Ht.
  destruct (_ <=? _).
  - split; cbn [fst snd].
    + destruct cur; [congruence | discriminate].
    + exists seps. split; [assumption|]. now rewrite <- Heq, <- !app_assoc.
  - rewrite app_assoc. apply new_chunk_spelling; [|assumption].
    apply (spelling_flush T chunks cur BlankLine Hst).
Qed.

Lemma add_paragraphs_spelling ps : forall T st,
  spelling T st -> Forall (plain_paragraph max_size) ps ->
  spelling (T ++ concat (map (fun p => blank_line ++ p) ps))
           (fold_left (add_paragraph max_size) ps st).
Proof.
  induction ps as [|p ps IH]; intros T st Hst Hps.
  - simpl. now rewrite app_nil_r.
  - inversion Hps; subst. cbn [fold_left map concat].
    rewrite app_assoc. apply IH; [|assumption].
    now apply add_paragraph_spelling.
Qed.

Lemma chunk_text_spelling text :
  Forall (plain_paragraph max_size) (split_blank text) ->
  spelling text
    (fold_left (add_paragraph max_size) (split_blank text) ([], [])).
Proof.
  intros Hplain. rewrite <- (join_split_blank text) at 1.
  destruct (split_blank text) as [|p ps] eqn:Hps.
  { now apply split_blank_nonempty in Hps. }
  inversion Hplain; subst. rewrite join_concat. cbn [fold_left].
  apply add_paragraphs_spelling; [|assumption].
  apply (first_paragraph_spelling [] [] p); [|assumption].
  now exists [].
Qed.

End ChunkerRoundTrip.

(** C1, as amended: when no paragraph of the text is empty and every
    paragraph longer than [max_size] consists of non-empty sentences
    separated by exactly one space, the first of them shorter than
    [max_size], the chunks of [_chunk_text text max_size] rejoined with a
    blank line or a single space at each boundary give back the text. *)
Theorem chunk_text_round_trip (text : str) (max_size : Z) :
  Forall (plain_paragraph max_size) (split_blank text) ->
  rejoins_to (_chunk_text text max_size) text.
Proof.
  intros Hplain. unfold _chunk_text, rejoins_to.
  destruct (chunk_text_spelling max_size text Hplain)
    as (Hcur & seps & Hlen & Heq).
  destruct (fold_left _ _ _) as [chunks cur]. simpl in *.
  apply truthy_true in Hcur as Ht. rewrite Ht.
  exists seps. split.
  - rewrite length_app. simpl. lia.
  - now rewrite rejoin_snoc.
Qed.

(** The round trip on a text with a paragraph that is split into
    sentences: ["Hi. Yo\n\nab"] with bound four gives
    [["Hi.", "Yo", "ab"]]. *)
Lemma chunk_text_round_trip_witness :
  let text := lit "Hi. Yo" ++ blank_line ++ lit "ab" in
  Forall (plain_paragraph 4) (split_blank text)
  /\ rejoins_to (_chunk_text text 4) text.
Proof.
  intros text.
  assert (H : Forall (plain_paragraph 4) (split_blank text)).
  { repeat constructor; try discriminate.
    intros s1 Hs1. vm_compute in Hs1. now injection Hs1 as <-. }
  exact (conj H (chunk_text_round_trip text 4 H)).
Defined.

(** C1 as stated fails.  [_chunk_text("Hi.  Yo", 4)] is [["Hi.", "Yo"]]:
    one of the two spaces after the full stop is gone, whichever separator
    is put back.  [_chunk_text("\n\n")] with the default bound is empty, and
    nothing can be rejoined to the text. *)
Lemma chunk_text_round_trip_counterexample :
  ~ rejoins_to (_chunk_text (lit "Hi.  Yo") 4) (lit "Hi.  Yo")
  /\ ~ rejoins_to (_chunk_text blank_line default_max_chunk_size) blank_line.
Proof.
  split; intros (seps & Hlen & Heq).
  - destruct seps as [|sp [|? ?]]; try discriminate Hlen.
    destruct sp; vm_compute in Heq; discriminate Heq.
  - discriminate Heq.
Qed.

(** ** The formatter client: [process_with_gemma] *)

Section FormatterFacts.

Context (E : environment) (ollama_url : str).

Local Abbreviation post := (generate_request ollama_url).
Local Abbreviation gemma := (process_with_gemma E ollama_url).

(** One call is one exchange, appended to the traffic; nothing else
    changes. *)
Lemma process_with_gemma_run content instr w :
  let reply := endpoint E (map fst (traffic w)) (post content instr) in
  gemma content instr w =
  (answer reply, with_traffic (traffic w ++ [(post content instr, reply)]) w).
Proof.
  unfold process_with_gemma, bind, requests_post, answer. simpl.
  destruct (endpoint E _ _) as [response|e]; [|reflexivity].
  destruct (status_code response =? 200); [|reflexivity].
  unfold lift. destruct (decoded response); reflexivity.
Qed.

Lemma answers_with_answer reply out :
  answers_with reply out -> answer reply = Ok (JString out).
Proof.
  intros (r & fields & -> & Hstatus & Hbody & Hfield). unfold answer.
  rewrite Hstatus, Hbody. unfold dict_get. cbn [Z.eqb Pos.eqb].
  destruct Hfield as [-> | [-> ->]]; reflexivity.
Qed.

Lemma failed_answer reply r :
  reply = Ok r -> status_code r <> 200 ->
  answer reply = Raise (generation_error r).
Proof.
  intros -> Hstatus. unfold answer.
  destruct (Z.eqb_spec (status_code r) 200); [contradiction | reflexivity].
Qed.

End FormatterFacts.

(** C10, as amended: when the response has status 200 and its body
    decodes to a JSON object without a [response] field,
    [process_with_gemma] returns the empty string; when the status is not
    200 it raises the error that carries the raw body, whatever the body;
    and it raises an error if and only if the status is not 200 or the body
    does not decode to a JSON object. *)
Theorem process_with_gemma_outcome (E : environment) (ollama_url : str)
  (content : str) (instr : instruction) (w : world) (r : http_response) :
  endpoint E (map fst (traffic w)) (generate_request ollama_url content instr)
    = Ok r ->
  let outcome := fst (process_with_gemma E ollama_url content instr w) in
  (forall fields,
      status_code r = 200 ->
      decoded r = Ok (JObject fields) ->
      lookup_field (lit "response") fields = None ->
      outcome = Ok (JString []))
  /\ (status_code r <> 200 ->
      outcome = Raise (Exception (lit "Error processing with Gemma: "
                                    ++ text r)))
  /\ ((exists e, outcome = Raise e) <->
      status_code r <> 200
      \/ ~ (exists fields, decoded r = Ok (JObject fields))).
Proof.
  intros Hreply outcome. subst outcome.
  rewrite process_with_gemma_run. cbn [fst]. rewrite Hreply.
  unfold answer.
  destruct (Z.eqb_spec (status_code r) 200) as [H200|Hnot].
  - split; [|split].
    + intros fields _ Hbody Hnone. rewrite Hbody. unfold dict_get.
      now rewrite Hnone.
    + contradiction.
    + destruct (decoded r) as [body|e].
      * destruct body; unfold dict_get;
          try (split;
               [ intros _; right; intros [fields Hf]; discriminate Hf
               | intros _; eexists; reflexivity ]).
        split; [intros [e He]; discriminate He|].
        intros [Hs | Hno]; [contradiction|].
        exfalso. apply Hno. eexists. reflexivity.
      * split; [|intros _; eexists; reflexivity].
        intros _. right. intros [fields Hf]. discriminate Hf.
  - split; [|split].
    + intros fields H200. contradiction.
    + reflexivity.
    + split; [auto | intros _; eexists; reflexivity].
Qed.

(** A 200 response with the JSON object [{}] gives the empty string. *)
Lemma process_with_gemma_outcome_witness :
  fst (process_with_gemma
         (Scenario.fixed [] (Ok Scenario.empty_object)) Scenario.url
         (lit "text") FinalInstruction Scenario.fresh)
  = Ok (JString []).
Proof.
  refine (proj1 (process_with_gemma_outcome
                   (Scenario.fixed [] (Ok Scenario.empty_object)) Scenario.url
                   (lit "text") FinalInstruction Scenario.fresh
                   Scenario.empty_object eq_refl) [] eq_refl eq_refl eq_refl).
Defined.

(** C10 as stated fails in one direction: a response with status 200
    whose body is not JSON makes [response.json()] raise, so an error is
    raised although the status is 200. *)
Lemma process_with_gemma_counterexample :
  status_code Scenario.not_json = 200
  /\ fst (process_with_gemma
            (Scenario.fixed [] (Ok Scenario.not_json)) Scenario.url
            (lit "text") FinalInstruction Scenario.fresh)
     = Raise JSONDecodeError.
Proof. split; reflexivity. Qed.

(** ** Discipline of the computations *)

Section Discipline.

Context (E : environment) (ollama_url : str).

Lemma disciplined_quiet {A} (m : M A) :
  (forall w, files (snd (m w)) = files w /\ traffic (snd (m w)) = traffic w) ->
  disciplined m.
Proof.
  intros H w. destruct (H w) as [Hf Ht]. split; [assumption|].
  exists []. rewrite app_nil_r. split; [assumption | left; constructor].
Qed.

Lemma disciplined_ret {A} (a : A) : disciplined (ret a).
Proof. apply disciplined_quiet. auto. Qed.

Lemma disciplined_raise {A} (e : exn) : disciplined (@raise A e).
Proof. apply disciplined_quiet. auto. Qed.

Lemma disciplined_lift {A} (r : result A) : disciplined (lift r).
Proof. apply disciplined_quiet. auto. Qed.

Lemma disciplined_print (m : message) : disciplined (print m).
Proof. apply disciplined_quiet. auto. Qed.

Lemma disciplined_bind {A B} (m : M A) (k : A -> M B) :
  disciplined m -> (forall a, disciplined (k a)) -> disciplined (bind m k).
Proof.
  intros Hm Hk w. unfold bind.
  destruct (Hm w) as (Hf & tr & Ht & Htr).
  destruct (m w) as [[a|e] w1]; cbn [fst snd] in *.
  - destruct (Hk a w1) as (Hf' & tr' & Ht' & Htr').
    split; [congruence|].
    exists (tr ++ tr'). split; [rewrite Ht', Ht; now rewrite app_assoc|].
    destruct Htr as [Hok | (tr0 & req & resp & _ & _ & _ & Habs)];
      [|discriminate Habs].
    destruct Htr' as [Hok' | (tr0 & req & resp & -> & Hok' & Hst & Hres)].
    + left. apply Forall_app. auto.
    + right. exists (tr ++ tr0), req, resp.
      rewrite app_assoc. repeat split; try assumption.
      apply Forall_app. auto.
  - split; [assumption|]. exists tr. split; [assumption|].
    destruct Htr as [Hok | (tr0 & req & resp & Heq & Hok & Hst & Hres)].
    + now left.
    + right. exists tr0, req, resp. repeat split; try assumption.
      now injection Hres as ->.
Qed.

Lemma disciplined_for_each {A S} (body : S -> A -> M S) (xs : list A) :
  (forall acc x, disciplined (body acc x)) ->
  forall acc, disciplined (for_each body xs acc).
Proof.
  intros Hbody. induction xs as [|x xs IH]; intros acc; simpl.
  - apply disciplined_ret.
  - apply disciplined_bind; auto.
Qed.

Lemma disciplined_process_with_gemma content instr :
  disciplined (process_with_gemma E ollama_url content instr).
Proof.
  intros w. rewrite process_with_gemma_run. cbn [fst snd].
  split; [reflexivity|].
  eexists. split; [reflexivity|].
  destruct (endpoint E _ _) as [resp|e] eqn:Hreply.
  - destruct (Z.eq_dec (status_code resp) 200) as [H200|Hnot].
    + left. repeat constructor. intros (r & Heq & Hr). simpl in Heq.
      congruence.
    + right. exists [], (generate_request ollama_url content instr), resp.
      repeat split; [constructor | assumption |].
      now apply failed_answer.
  - left. repeat constructor. intros (r & Heq & _). discriminate Heq.
Qed.

Lemma disciplined_extract_text_from_pdf pdf_path :
  disciplined (extract_text_from_pdf E pdf_path).
Proof.
  unfold extract_text_from_pdf. apply disciplined_bind.
  { apply disciplined_quiet. intros w. unfold document_open.
    destruct (fitz_open E pdf_path); auto. }
  intros document. apply disciplined_bind.
  { apply disciplined_for_each. intros pages [page_num page].
    unfold extract_page. apply disciplined_bind; [apply disciplined_lift|].
    intros text. apply disciplined_bind; [apply disciplined_lift|].
    intros blocks. destruct (fold_left _ _ _). apply disciplined_ret. }
  intros pages. apply disciplined_bind; [|intros; apply disciplined_ret].
  apply disciplined_quiet. auto.
Qed.

Lemma disciplined_process_page page_count full_content item :
  disciplined (process_page E ollama_url page_count full_content item).
Proof.
  destruct item as [i page]. unfold process_page.
  apply disciplined_bind; [apply disciplined_print | intros _].
  apply disciplined_bind.
  - destruct (_ >? _); [|apply disciplined_process_with_gemma].
    apply disciplined_bind.
    + apply disciplined_for_each. intros processed [j chunk].
      unfold process_chunk.
      apply disciplined_bind; [apply disciplined_print | intros _].
      apply disciplined_bind; [apply disciplined_process_with_gemma|].
      intros; apply disciplined_ret.
    + intros processed.
      apply disciplined_bind; [apply disciplined_lift|].
      intros; apply disciplined_process_with_gemma.
  - intros processed.
    apply disciplined_bind; [apply disciplined_lift|].
    intros; apply disciplined_ret.
Qed.

Lemma disciplined_assemble_pages pages :
  disciplined (assemble_pages E ollama_url pages).
Proof.
  apply disciplined_for_each. intros. apply disciplined_process_page.
Qed.

Lemma disciplined_process_section full_content size overlap acc i :
  disciplined (process_section E ollama_url full_content size overlap acc i).
Proof.
  unfold process_section.
  apply disciplined_bind; [apply disciplined_process_with_gemma|].
  intros processed. apply disciplined_bind; [apply disciplined_lift|].
  intros; apply disciplined_ret.
Qed.

Lemma disciplined_finalize full_content :
  disciplined (finalize E ollama_url full_content).
Proof.
  unfold finalize.
  apply disciplined_bind; [apply disciplined_print | intros _].
  destruct (_ >? _); [|apply disciplined_process_with_gemma].
  apply disciplined_bind; [apply disciplined_print | intros _].
  apply disciplined_bind.
  - apply disciplined_for_each. intros.
    apply disciplined_process_section.
  - intros; apply disciplined_process_with_gemma.
Qed.

Lemma disciplined_aborting {A} (m : M A) : disciplined m -> aborting m.
Proof.
  intros Hm w. destruct (Hm w) as (Hf & tr & Ht & Htr).
  exists tr. split; [assumption|].
  destruct Htr as [Hok | (tr0 & req & resp & Heq & Hok & Hst & Hres)].
  - now left.
  - right. exists tr0, req, resp. auto.
Qed.

Lemma aborting_bind {A B} (m : M A) (k : A -> M B) :
  disciplined m -> (forall a, aborting (k a)) -> aborting (bind m k).
Proof.
  intros Hm Hk w. unfold bind.
  destruct (Hm w) as (Hf & tr & Ht & Htr).
  destruct (m w) as [[a|e] w1]; cbn [fst snd] in *.
  - destruct (Hk a w1) as (tr' & Ht' & Htr').
    exists (tr ++ tr'). split; [rewrite Ht', Ht; now rewrite app_assoc|].
    destruct Htr as [Hok | (tr0 & req & resp & _ & _ & _ & Habs)];
      [|discriminate Habs].
    destruct Htr'
      as [Hok' | (tr0 & req & resp & -> & Hok' & Hst & Hres & Hfiles)].
    + left. apply Forall_app. auto.
    + right. exists (tr ++ tr0), req, resp.
      rewrite app_assoc. repeat split; try assumption; [|congruence].
      apply Forall_app. auto.
  - exists tr. split; [assumption|].
    destruct Htr as [Hok | (tr0 & req & resp & Heq & Hok & Hst & Hres)].
    + now left.
    + right. exists tr0, req, resp. repeat split; try assumption.
      now injection Hres as ->.
Qed.

(** Saving sends nothing. *)
Lemma save_traffic output_path final_markdown w :
  traffic (snd (save E output_path final_markdown w)) = traffic w.
Proof.
  unfold save. destruct output_path as [path|]; [|reflexivity].
  destruct (truthy path); [|reflexivity].
  unfold bind, write_text_file. destruct (writable E path); [|reflexivity].
  destruct final_markdown; try reflexivity.
  destruct (existsb is_surrogate s); reflexivity.
Qed.

Lemma aborting_convert_to_markdown pdf_path output_path :
  aborting (convert_to_markdown E ollama_url pdf_path output_path).
Proof.
  unfold convert_to_markdown.
  apply aborting_bind; [apply disciplined_print | intros _].
  apply aborting_bind; [apply disciplined_extract_text_from_pdf|].
  intros pages.
  apply aborting_bind; [apply disciplined_assemble_pages|].
  intros full_content.
  apply aborting_bind; [apply disciplined_finalize|].
  intros final_markdown w. exists []. rewrite app_nil_r. split.
  - unfold bind at 1.
    pose proof (save_traffic output_path final_markdown w) as Hsave.
    destruct (save E output_path final_markdown w) as [[[]|e] w1];
      exact Hsave.
  - left. constructor.
Qed.

End Discipline.

(** C5: when, during a conversion, the endpoint answers a request with a
    status other than 200, [convert_to_markdown] ends with the exception
    that carries the raw body of that response, that request is the last
    one sent, and no file has been created or changed. *)
Theorem failed_call_aborts (E : environment) (ollama_url pdf_path : str)
  (output_path : option str) (w : world)
  (req : request) (resp : http_response) :
  let run := convert_to_markdown E ollama_url pdf_path output_path w in
  In (req, Ok resp) (new_traffic w (snd run)) ->
  status_code resp <> 200 ->
  fst run = Raise (Exception (lit "Error processing with Gemma: "
                                ++ text resp))
  /\ files (snd run) = files w
  /\ last (traffic (snd run)) = Some (req, Ok resp).
Proof.
  intros run Hin Hstatus. subst run. unfold new_traffic in Hin.
  destruct (aborting_convert_to_markdown E ollama_url pdf_path output_path w)
    as (tr & Ht & Htr).
  rewrite Ht, drop_app_length in Hin. rewrite Ht.
  assert (Hfailed : failed (snd (req, Ok resp))) by (now exists resp).
  destruct Htr
    as [Hok | (tr0 & req' & resp' & -> & Hok & _ & Hres & Hfiles)].
  - rewrite List.Forall_forall in Hok. now apply Hok in Hin.
  - apply in_app_or in Hin as [Hin | [Heq | []]].
    + rewrite List.Forall_forall in Hok. now apply Hok in Hin.
    + injection Heq as -> ->. repeat split; [assumption | assumption |].
      now rewrite app_assoc, last_snoc.
Qed.

(** A one-page document and an endpoint that answers 500: the conversion
    ends with the error and the output file does not exist. *)
Lemma failed_call_aborts_witness :
  let E := Scenario.fixed [Scenario.text_page (lit "Hello")]
             (Ok Scenario.server_error) in
  let run := convert_to_markdown E Scenario.url Scenario.pdf
               (Some Scenario.md) Scenario.fresh in
  fst run = Raise (Exception (lit "Error processing with Gemma: "
                                ++ lit "model not loaded"))
  /\ files (snd run) = files Scenario.fresh
  /\ last (traffic (snd run))
     = Some (generate_request Scenario.url (lit "Hello") (PageInstruction 1),
             Ok Scenario.server_error).
Proof.
  intros E run.
  refine (failed_call_aborts E Scenario.url Scenario.pdf (Some Scenario.md)
            Scenario.fresh _ Scenario.server_error _ _).
  - vm_compute. left. reflexivity.
  - vm_compute. discriminate.
Defined.

(** ** The final pass: [finalize] *)

Section FinalizeFacts.

Context (E : environment) (ollama_url : str).

Local Abbreviation post := (generate_request ollama_url).
Local Abbreviation gemma := (process_with_gemma E ollama_url).

Lemma bind_assoc {A B C} (m : M A) (k : A -> M B) (h : B -> M C) w :
  bind (bind m k) h w = bind m (fun a => bind (k a) h) w.
Proof. unfold bind. destruct (m w) as [[a|e] w1]; reflexivity. Qed.

Lemma new_traffic_app w w' tr :
  traffic w' = traffic w ++ tr -> new_traffic w w' = tr.
Proof. intros H. unfold new_traffic. rewrite H. apply drop_app_length. Qed.

(** After a first computation whose effect is known, a disciplined
    continuation only adds to the traffic. *)
Lemma bind_traffic {A B} (m : M A) (k : A -> M B) w r w1 :
  m w = (r, w1) -> (forall a, disciplined (k a)) ->
  exists tr, traffic (snd (bind m k w)) = traffic w1 ++ tr.
Proof.
  intros Hm Hk. unfold bind. rewrite Hm. destruct r as [a|e].
  - destruct (Hk a w1) as (_ & tr & Ht & _). eauto.
  - exists []. now rewrite app_nil_r.
Qed.

Lemma range_first (n step : Z) :
  0 < n -> 0 < step -> exists rest, range 0 n step = 0 :: rest.
Proof.
  intros Hn Hstep. unfold range.
  destruct (Z.to_nat ((n - 0 + step - 1) / step)) as [|m] eqn:Hcount.
  - assert (1 <= (n - 0 + step - 1) / step)
      by (apply Z.div_le_lower_bound; lia).
    lia.
  - simpl. eauto.
Qed.

(** Up to 12000 characters: one request, for the whole buffer. *)
Lemma finalize_direct full_content w :
  len full_content <= 12000 ->
  direct_pass ollama_url full_content w
    (snd (finalize E ollama_url full_content w)).
Proof.
  intros Hlen. unfold finalize, direct_pass, bind, print. cbn iota.
  destruct (_ >? _) eqn:Hgt; [apply Z.gtb_gt in Hgt; lia|].
  rewrite process_with_gemma_run. cbn [snd].
  eexists. now apply new_traffic_app.
Qed.

(** Above 12000 characters: the first request is the first section. *)
Lemma finalize_sectioned full_content w :
  len full_content > 12000 ->
  exists reply tr,
    new_traffic w (snd (finalize E ollama_url full_content w)) =
    (post (window full_content 0) (SectionInstruction 1), reply) :: tr.
Proof.
  intros Hlen. unfold finalize, print. unfold bind at 1. cbn iota.
  destruct (_ >? _) eqn:Hgt;
    [|rewrite Z.gtb_ltb in Hgt; apply Z.ltb_ge in Hgt; lia].
  unfold bind at 1. cbn iota.
  destruct (range_first (len full_content) (10000 - 1000)) as [rest ->];
    [lia | lia |].
  cbn [for_each]. unfold process_section at 1.
  rewrite !bind_assoc.
  match goal with
  | |- context [bind (gemma ?c ?i) ?k ?w0] =>
      destruct (bind_traffic (gemma c i) k w0 _ _
                  (process_with_gemma_run E ollama_url c i w0))
        as [tr Htr]
  end.
  { intros processed.
    repeat first
      [ apply disciplined_ret | apply disciplined_lift
      | apply disciplined_process_with_gemma
      | apply disciplined_process_section
      | apply disciplined_for_each | apply disciplined_bind | intro ]. }
  cbn [traffic with_traffic with_stdout] in Htr.
  eexists. exists tr. apply new_traffic_app.
  rewrite Htr, <- app_assoc. reflexivity.
Qed.

End FinalizeFacts.

(** C4: the final pass takes the direct path, one request for the whole
    buffer with the general instruction, exactly when the buffer has at
    most 12000 characters, so also at exactly 12000; it sends section
    requests if and only if the buffer is longer than 12000. *)
Theorem finalize_threshold (E : environment) (ollama_url : str)
  (full_content : str) (w : world) :
  let w' := snd (finalize E ollama_url full_content w) in
  (len full_content = 12000 -> direct_pass ollama_url full_content w w')
  /\ (direct_pass ollama_url full_content w w' <-> len full_content <= 12000)
  /\ (sectioned_pass ollama_url w w' <-> len full_content > 12000).
Proof.
  intros w'. subst w'.
  assert (Hdirect : len full_content <= 12000 ->
                    ~ sectioned_pass ollama_url w
                        (snd (finalize E ollama_url full_content w))).
  { intros Hlen (k & content & reply & Hin).
    destruct (finalize_direct E ollama_url full_content w Hlen)
      as [reply' Heq].
    rewrite Heq in Hin. destruct Hin as [Hin | []]. discriminate Hin. }
  assert (Hsect : len full_content > 12000 ->
                  ~ direct_pass ollama_url full_content w
                      (snd (finalize E ollama_url full_content w))).
  { intros Hlen [reply' Heq].
    destruct (finalize_sectioned E ollama_url full_content w Hlen)
      as (reply & tr & Heq').
    rewrite Heq' in Heq. discriminate Heq. }
  split; [|split].
  - intros Hlen. apply finalize_direct. lia.
  - split; [|apply finalize_direct].
    intros Hd. destruct (Z_le_gt_dec (len full_content) 12000); [assumption|].
    now apply Hsect in Hd.
  - split.
    + intros Hs. destruct (Z_le_gt_dec (len full_content) 12000); [|assumption].
      now apply Hdirect in Hs.
    + intros Hlen.
      destruct (finalize_sectioned E ollama_url full_content w Hlen)
        as (reply & tr & Heq).
      exists 1, (window full_content 0), reply. rewrite Heq. now left.
Qed.

(** A buffer of exactly 12000 characters goes out in one request. *)
Lemma finalize_threshold_witness :
  let E := Scenario.fixed [] (Ok (Scenario.generated (lit "# Title"))) in
  let buffer := repeat 97%N (Z.to_nat 12000) in
  direct_pass Scenario.url buffer Scenario.fresh
    (snd (finalize E Scenario.url buffer Scenario.fresh)).
Proof.
  intros E buffer.
  refine (proj1 (finalize_threshold E Scenario.url buffer Scenario.fresh) _).
  vm_compute. reflexivity.
Defined.

(** ** Runs against a well-behaved endpoint *)

Section WellBehaved.

Context (E : environment) (ollama_url : str).
Hypothesis endpoint_ok : well_behaved E.

Local Abbreviation post := (generate_request ollama_url).
Local Abbreviation gemma := (process_with_gemma E ollama_url).

(** A call returns the string the endpoint answered with. *)
Lemma process_with_gemma_ok content instr w :
  exists reply out,
    answers_with reply out
    /\ gemma content instr w =
       (Ok (JString out),
        with_traffic (traffic w ++ [(post content instr, reply)]) w).
Proof.
  rewrite process_with_gemma_run.
  destruct (endpoint_ok (map fst (traffic w)) (post content instr))
    as [out Hout].
  eexists. exists out. split; [exact Hout|].
  now rewrite (answers_with_answer _ _ Hout).
Qed.

Lemma process_section_ok full_content acc (k : nat) w :
  exists reply out,
    answers_with reply out
    /\ process_section E ollama_url full_content 10000 1000 acc
         (0 + Z.of_nat k * (10000 - 1000)) w =
       (Ok (acc ++ out),
        with_traffic
          (traffic w ++ [(post (window full_content k)
                            (SectionInstruction (Z.of_nat k + 1)), reply)]) w).
Proof.
  unfold process_section, bind.
  destruct (process_with_gemma_ok
              (slice full_content (0 + Z.of_nat k * (10000 - 1000))
                 (0 + Z.of_nat k * (10000 - 1000) + 10000))
              (SectionInstruction
                 ((0 + Z.of_nat k * (10000 - 1000)) / (10000 - 1000) + 1)) w)
    as (reply & out & Hout & ->).
  exists reply, out. split; [assumption|]. cbn [lift as_str ret].
  unfold window.
  replace (0 + Z.of_nat k * (10000 - 1000)) with (9000 * Z.of_nat k) by lia.
  replace (9000 * Z.of_nat k / (10000 - 1000)) with (Z.of_nat k); [reflexivity|].
  change (10000 - 1000) with 9000. rewrite Z.mul_comm.
  symmetry. apply Z.div_mul. lia.
Qed.

(** The sectioning loop, from window [k] on. *)
Lemma sections_loop_ok full_content (count : nat) : forall (k : nat) acc w,
  exists tr outs w',
    for_each (process_section E ollama_url full_content 10000 1000)
      (map (fun k => 0 + Z.of_nat k * (10000 - 1000)) (seq k count)) acc w
    = (Ok (acc ++ concat outs), w')
    /\ traffic w' = traffic w ++ tr
    /\ files w' = files w
    /\ sections_run ollama_url full_content k tr outs
    /\ length tr = count.
Proof.
  induction count as [|count IH]; intros k acc w.
  - exists [], [], w. cbn [seq map for_each concat]. rewrite !app_nil_r.
    repeat split. constructor.
  - cbn [seq map for_each]. unfold bind.
    destruct (process_section_ok full_content acc k w)
      as (reply & out & Hout & ->).
    destruct (IH (S k) (acc ++ out)
                (with_traffic
                   (traffic w ++ [(post (window full_content k)
                                     (SectionInstruction (Z.of_nat k + 1)),
                                   reply)]) w))
      as (tr & outs & w' & -> & Htr & Hfiles & Hrun & Hlen).
    eexists. exists (out :: outs), w'. cbn [concat].
    rewrite <- app_assoc. split; [reflexivity|].
    split; [|split; [|split]].
    + rewrite Htr. cbn [traffic with_traffic]. now rewrite <- app_assoc.
    + exact Hfiles.
    + now constructor.
    + simpl. now rewrite Hlen.
Qed.

Lemma finalize_sections_ok full_content w :
  len full_content > 12000 ->
  exists tr outs reply final,
    fst (finalize E ollama_url full_content w) = Ok (JString final)
    /\ new_traffic w (snd (finalize E ollama_url full_content w)) =
       tr ++ [(post (concat outs) BoundaryCleanInstruction, reply)]
    /\ sections_run ollama_url full_content 0 tr outs
    /\ length tr = window_count full_content
    /\ answers_with reply final.
Proof.
  intros Hlen. unfold finalize, print. unfold bind at 1. cbn iota.
  destruct (_ >? _) eqn:Hgt;
    [|rewrite Z.gtb_ltb in Hgt; apply Z.ltb_ge in Hgt; lia].
  unfold bind at 1. cbn iota. unfold bind, range.
  match goal with
  | |- context [for_each _ (map _ (seq 0 ?n)) [] ?w0] =>
      destruct (sections_loop_ok full_content n 0 [] w0)
        as (tr & outs & w' & -> & Htr & _ & Hrun & Hcount)
  end.
  cbn [app].
  destruct (process_with_gemma_ok (concat outs) BoundaryCleanInstruction w')
    as (reply & final & Hfinal & ->).
  exists tr, outs, reply, final. cbn [fst snd app].
  repeat split; try assumption.
  - apply new_traffic_app. cbn [traffic with_traffic].
    rewrite Htr. cbn [traffic with_stdout]. now rewrite <- app_assoc.
  - rewrite Hcount. unfold window_count. f_equal. f_equal. lia.
Qed.

End WellBehaved.

(** C6: when the buffer is longer than 12000 characters and the endpoint
    answers every request, the final pass sends one request per window, in
    order, the [k]-th window being the 10000 characters from offset
    [9000 * k] (so consecutive windows share 1000 characters), then one
    boundary-cleanup request whose content is the outputs of the windows
    concatenated without separator; the answer to that request is the
    result. *)
Theorem finalize_sections (E : environment) (ollama_url : str)
  (full_content : str) (w : world) :
  len full_content > 12000 ->
  well_behaved E ->
  let run := finalize E ollama_url full_content w in
  exists tr outs reply final,
    fst run = Ok (JString final)
    /\ new_traffic w (snd run) =
       tr ++ [(generate_request ollama_url (concat outs)
                 BoundaryCleanInstruction, reply)]
    /\ sections_run ollama_url full_content 0 tr outs
    /\ length tr = window_count full_content
    /\ answers_with reply final
    /\ (forall k, len (window full_content k)
                  = Z.max 0 (Z.min 10000
                               (len full_content - 9000 * Z.of_nat k)))
    /\ (forall k, drop (Z.to_nat 9000) (window full_content k)
                  = take (Z.to_nat 1000) (window full_content (S k))).
Proof.
  intros Hlen Hok run. subst run.
  destruct (finalize_sections_ok E ollama_url Hok full_content w Hlen)
    as (tr & outs & reply & final & H1 & H2 & H3 & H4 & H5).
  exists tr, outs, reply, final. repeat split; try assumption.
  - intros k. unfold window, slice, len.
    rewrite length_take, length_drop. lia.
  - intros k. unfold window, slice.
    rewrite skipn_firstn_comm, take_take, drop_drop.
    f_equal; [lia | f_equal; lia].
Qed.

(** An endpoint that always generates the same text is well behaved. *)
Lemma fixed_well_behaved document out :
  well_behaved (Scenario.fixed document (Ok (Scenario.generated out))).
Proof.
  intros history r. exists out.
  exists (Scenario.generated out), [(lit "response", JString out)].
  repeat split. left. vm_compute. reflexivity.
Qed.

(** A buffer of 12001 characters is processed in two sections. *)
Lemma finalize_sections_witness :
  let E := Scenario.fixed [] (Ok (Scenario.generated (lit "ok"))) in
  let buffer := repeat 97%N (Z.to_nat 12001) in
  let run := finalize E Scenario.url buffer Scenario.fresh in
  exists tr outs reply final,
    fst run = Ok (JString final)
    /\ new_traffic Scenario.fresh (snd run) =
       tr ++ [(generate_request Scenario.url (concat outs)
                 BoundaryCleanInstruction, reply)]
    /\ sections_run Scenario.url buffer 0 tr outs
    /\ length tr = window_count buffer
    /\ answers_with reply final
    /\ (forall k, len (window buffer k)
                  = Z.max 0 (Z.min 10000 (len buffer - 9000 * Z.of_nat k)))
    /\ (forall k, drop (Z.to_nat 9000) (window buffer k)
                  = take (Z.to_nat 1000) (window buffer (S k))).
Proof.
  intros E buffer.
  refine (finalize_sections E Scenario.url buffer Scenario.fresh _ _).
  - vm_compute. reflexivity.
  - apply fixed_well_behaved.
Defined.

(** ** The extractor and the loop over the pages *)

Section Extraction.

Context (E : environment).

Lemma scan_blocks bs : forall t acc,
  fold_left scan_block bs (t, acc) =
  (extracted_text t bs, acc ++ map structure_block bs).
Proof.
  induction bs as [|b bs IH]; intros t acc.
  - simpl. now rewrite app_nil_r.
  - cbn [fold_left scan_block]. rewrite IH, <- app_assoc. f_equal.
    unfold extracted_text. destruct bs as [|b' bs]; [reflexivity|].
    rewrite last_cons_cons.
    destruct (last (b' :: bs)) eqn:Hlast; [reflexivity|].
    apply last_None in Hlast. discriminate Hlast.
Qed.

(** The loop over readable pages adds their records, in order. *)
Lemma extract_pages_ok document : forall (i : nat) acc w,
  Forall readable document ->
  exists pages,
    for_each extract_page
      (zip (map Z.of_nat (seq i (length document))) document) acc w
    = (Ok (acc ++ pages), w)
    /\ pages_extracted i document pages.
Proof.
  induction document as [|page document IH]; intros i acc w Hread.
  - exists []. rewrite app_nil_r. split; [reflexivity | constructor].
  - inversion Hread as [|? ? (t & bs & Ht & Hbs) Hrest]; subst.
    cbn [length seq map zip zip_with for_each].
    unfold bind at 1. unfold extract_page at 1.
    rewrite Ht, Hbs. unfold bind, lift. rewrite scan_blocks. cbn [ret app].
    destruct (IH (S i) (acc ++ [ {| page_num := Z.of_nat i + 1;
                                    page_text := extracted_text t bs;
                                    width := rect_width page;
                                    height := rect_height page;
                                    blocks := map structure_block bs |} ])
                w Hrest) as (pages & -> & Hpages).
    eexists. rewrite <- app_assoc. split; [reflexivity|].
    now apply extracted_next.
Qed.

Lemma remove_one_head d ds : remove_one d (d :: ds) = ds.
Proof. simpl. destruct (decide (d = d)); congruence. Qed.

(** On a document whose pages are all readable the extractor returns the
    records and leaves the world as it found it. *)
Lemma extract_text_from_pdf_ok pdf_path document w :
  fitz_open E pdf_path = Ok document ->
  Forall readable document ->
  exists pages,
    extract_text_from_pdf E pdf_path w = (Ok pages, w)
    /\ pages_extracted 0 document pages.
Proof.
  intros Hopen Hread. unfold extract_text_from_pdf, enumerate.
  unfold bind at 1. unfold document_open. rewrite Hopen.
  unfold bind at 1.
  destruct (extract_pages_ok document 0 []
              (with_open_documents (pdf_path :: open_documents w) w) Hread)
    as (pages & -> & Hpages).
  exists pages. split; [|assumption].
  unfold bind, document_close, ret, with_open_documents. cbn [open_documents].
  rewrite remove_one_head. now destruct w.
Qed.

End Extraction.

Section Assembly.

Context (E : environment) (ollama_url : str).
Hypothesis endpoint_ok : well_behaved E.

Local Abbreviation post := (generate_request ollama_url).

Lemma all_str_strings outs : all_str (map JString outs) = Ok outs.
Proof.
  induction outs as [|out outs IH]; [reflexivity|].
  cbn [map all_str as_str]. now rewrite IH.
Qed.

(** The loop over the chunks of a page, from chunk [j] on. *)
Lemma chunks_loop_ok page_num chunk_count chunks : forall (j : nat) acc w,
  exists tr outs w',
    for_each (process_chunk E ollama_url page_num chunk_count)
      (zip (map Z.of_nat (seq j (length chunks))) chunks) acc w
    = (Ok (acc ++ map JString outs), w')
    /\ traffic w' = traffic w ++ tr
    /\ chunks_run ollama_url page_num chunk_count j chunks tr outs.
Proof.
  induction chunks as [|chunk chunks IH]; intros j acc w.
  - exists [], [], w. cbn. rewrite !app_nil_r. repeat split. constructor.
  - cbn [length seq map zip zip_with for_each].
    unfold bind at 1. unfold process_chunk at 1. unfold bind, print.
    match goal with
    | |- context [process_with_gemma E ollama_url ?c ?i ?w0] =>
        destruct (process_with_gemma_ok E ollama_url endpoint_ok c i w0)
          as (reply & out & Hout & ->)
    end.
    cbn [ret].
    match goal with
    | |- context [for_each _ _ ?acc' ?w1] =>
        destruct (IH (S j) acc' w1) as (tr & outs & w' & -> & Htr & Hrun)
    end.
    eexists. exists (out :: outs), w'. cbn [map].
    rewrite <- app_assoc. split; [reflexivity|]. split.
    + rewrite Htr. cbn [traffic with_traffic with_stdout].
      now rewrite <- app_assoc.
    + now constructor.
Qed.

(** One turn of the loop over the pages. *)
Lemma process_page_ok page_count full_content i page w :
  exists tr out w',
    process_page E ollama_url page_count full_content (i, page) w
    = (Ok (full_content ++ (out ++ blank_line)), w')
    /\ traffic w' = traffic w ++ tr
    /\ page_run ollama_url page tr out.
Proof.
  unfold process_page. unfold bind at 1. unfold print. unfold bind at 1.
  destruct (len (page_text page) >? 8000) eqn:Hlong.
  - unfold bind at 1. unfold enumerate.
    match goal with
    | |- context [for_each ?body (zip _ ?cs) [] ?w0] =>
        destruct (chunks_loop_ok (page_num page) (len cs) cs 0 [] w0)
          as (tr & outs & w1 & -> & Htr & Hrun)
    end.
    cbn [app]. unfold bind at 1. unfold str_join, lift.
    rewrite all_str_strings.
    destruct (process_with_gemma_ok E ollama_url endpoint_ok
                (join blank_line outs) (CombineInstruction (page_num page)) w1)
      as (reply & out & Hout & ->).
    unfold bind. cbn [as_str ret].
    eexists. exists out. eexists. split; [reflexivity|]. split.
    + cbn [traffic with_traffic]. rewrite Htr.
      cbn [traffic with_stdout]. now rewrite <- app_assoc.
    + apply page_chunked; try assumption. now apply Z.gtb_gt in Hlong.
  - match goal with
    | |- context [process_with_gemma E ollama_url ?c ?i ?w0] =>
        destruct (process_with_gemma_ok E ollama_url endpoint_ok c i w0)
          as (reply & out & Hout & ->)
    end.
    unfold bind, lift. cbn [as_str ret].
    eexists. exists out. eexists. split; [reflexivity|]. split.
    + reflexivity.
    + apply page_direct; [|assumption].
      rewrite Z.gtb_ltb in Hlong. now apply Z.ltb_ge in Hlong.
Qed.

(** The loop over the pages. *)
Lemma pages_loop_ok page_count items : forall acc w,
  exists tr full w',
    for_each (process_page E ollama_url page_count) items acc w
    = (Ok (acc ++ full), w')
    /\ traffic w' = traffic w ++ tr
    /\ pages_run ollama_url (map snd items) tr full.
Proof.
  induction items as [|[i page] items IH]; intros acc w.
  - exists [], [], w. cbn. rewrite !app_nil_r. repeat split. constructor.
  - cbn [for_each map snd]. unfold bind.
    destruct (process_page_ok page_count acc i page w)
      as (tr & out & w1 & -> & Htr & Hrun).
    destruct (IH (acc ++ (out ++ blank_line)) w1)
      as (tr' & full & w' & -> & Htr' & Hrun').
    exists (tr ++ tr'), (out ++ blank_line ++ full), w'.
    split; [now rewrite <- !app_assoc|]. split.
    + rewrite Htr', Htr. now rewrite <- app_assoc.
    + now constructor.
Qed.

Lemma assemble_pages_ok pages w :
  exists full w',
    assemble_pages E ollama_url pages w = (Ok full, w')
    /\ pages_run ollama_url pages (new_traffic w w') full.
Proof.
  unfold assemble_pages.
  destruct (pages_loop_ok (len pages) (enumerate pages) [] w)
    as (tr & full & w' & Heq & Htr & Hrun).
  exists full, w'. split; [exact Heq|].
  rewrite (new_traffic_app _ _ _ Htr).
  unfold enumerate in Hrun. rewrite snd_zip in Hrun; [assumption|].
  rewrite length_map, length_seq. lia.
Qed.

End Assembly.

(** C7: on a document whose pages can all be read and with an endpoint
    that answers every request, the extractor returns one record per page
    in the order of the document, numbered 1, 2, ..., n; the loop over the
    pages sends the requests of the pages one page after the other in that
    order; within a long page the chunks are sent in the order
    [_chunk_text] returned them and their outputs are joined in that same
    order; the buffer handed to the final pass is the outputs of the pages
    in page order, each followed by a blank line. *)
Theorem order_preserved (E : environment) (ollama_url pdf_path : str)
  (output_path : option str) (document : list pdf_page) (w : world) :
  well_behaved E ->
  fitz_open E pdf_path = Ok document ->
  Forall readable document ->
  exists pages full w1 w2,
    extract_text_from_pdf E pdf_path (snd (print (MsgExtracting pdf_path) w))
      = (Ok pages, w1)
    /\ pages_extracted 0 document pages
    /\ map page_num pages = map Z.of_nat (seq 1 (length document))
    /\ assemble_pages E ollama_url pages w1 = (Ok full, w2)
    /\ pages_run ollama_url pages (new_traffic w1 w2) full
    /\ convert_to_markdown E ollama_url pdf_path output_path w
       = (final_markdown <- finalize E ollama_url full ;;
          save E output_path final_markdown ;;;
          ret final_markdown) w2.
Proof.
  intros Hok Hopen Hread.
  destruct (extract_text_from_pdf_ok E pdf_path document
              (snd (print (MsgExtracting pdf_path) w)) Hopen Hread)
    as (pages & Hextract & Hpages).
  destruct (assemble_pages_ok E ollama_url Hok pages
              (snd (print (MsgExtracting pdf_path) w)))
    as (full & w2 & Hassemble & Hrun).
  exists pages, full, (snd (print (MsgExtracting pdf_path) w)), w2.
  repeat split; try assumption.
  - clear - Hpages. change 1%nat with (S 0). generalize dependent 0%nat.
    intros i Hpages. induction Hpages; [reflexivity|].
    cbn [map length seq page_num]. rewrite IHHpages. f_equal. lia.
  - unfold convert_to_markdown. unfold bind at 1. cbn [print snd] in *.
    unfold bind at 1. rewrite Hextract.
    unfold bind at 1. now rewrite Hassemble.
Qed.

(** A document of two pages, the second one long enough to be chunked. *)
Lemma order_preserved_witness :
  let document := [Scenario.text_page (lit "Hello");
                   Scenario.text_page (repeat 97%N (Z.to_nat 9000))] in
  let E := Scenario.fixed document (Ok (Scenario.generated (lit "ok"))) in
  let w := Scenario.fresh in
  exists pages full w1 w2,
    extract_text_from_pdf E Scenario.pdf
      (snd (print (MsgExtracting Scenario.pdf) w)) = (Ok pages, w1)
    /\ pages_extracted 0 document pages
    /\ map page_num pages = map Z.of_nat (seq 1 (length document))
    /\ assemble_pages E Scenario.url pages w1 = (Ok full, w2)
    /\ pages_run Scenario.url pages (new_traffic w1 w2) full
    /\ convert_to_markdown E Scenario.url Scenario.pdf (Some Scenario.md) w
       = (final_markdown <- finalize E Scenario.url full ;;
          save E (Some Scenario.md) final_markdown ;;;
          ret final_markdown) w2.
Proof.
  intros document E w.
  refine (order_preserved E Scenario.url Scenario.pdf (Some Scenario.md)
            document w _ _ _).
  - apply fixed_well_behaved.
  - reflexivity.
  - repeat constructor; eexists; eexists; split; reflexivity.
Defined.

(** ** The extractor and the document handle *)

Section Handle.

Context (E : environment).

(** The loop over the pages changes nothing in the world. *)
Lemma extract_pages_world items : forall acc w,
  snd (for_each extract_page items acc w) = w.
Proof.
  induction items as [|[i page] items IH]; intros acc w; [reflexivity|].
  cbn [for_each]. unfold bind at 1. unfold extract_page at 1.
  unfold bind, lift.
  destruct (get_text_text page); [|reflexivity].
  destruct (get_text_blocks page); [|reflexivity].
  destruct (fold_left _ _ _). cbn [ret]. apply IH.
Qed.

(** It raises as soon as a page cannot be read. *)
Lemma extract_pages_raise document : forall (i : nat) acc w,
  ~ Forall readable document ->
  exists e,
    fst (for_each extract_page
           (zip (map Z.of_nat (seq i (length document))) document) acc w)
    = Raise e.
Proof.
  induction document as [|page document IH]; intros i acc w Hnot.
  - exfalso. apply Hnot. constructor.
  - cbn [length seq map zip zip_with for_each].
    unfold bind at 1. unfold extract_page at 1. unfold bind, lift.
    destruct (get_text_text page) as [t|e] eqn:Ht; [|eauto].
    destruct (get_text_blocks page) as [bs|e] eqn:Hbs; [|eauto].
    destruct (fold_left _ _ _). cbn [ret]. apply IH.
    intros Hall. apply Hnot. constructor; [|assumption].
    now exists t, bs.
Qed.

(** The extractor changes at most the open documents. *)
Lemma extract_text_from_pdf_world pdf_path w :
  exists ds,
    snd (extract_text_from_pdf E pdf_path w) = with_open_documents ds w.
Proof.
  unfold extract_text_from_pdf, bind, document_open.
  destruct (fitz_open E pdf_path) as [document|e].
  - pose proof (extract_pages_world (enumerate document) []
                  (with_open_documents (pdf_path :: open_documents w) w))
      as Hworld.
    destruct (for_each _ _ _ _) as [[pages|e] w1]; cbn [snd] in Hworld;
      subst w1; cbn; eauto.
  - exists (open_documents w). now destruct w.
Qed.

(** When a page cannot be read the call ends there, before
    [document.close()]. *)
Lemma extract_text_from_pdf_raise pdf_path document w :
  fitz_open E pdf_path = Ok document ->
  ~ Forall readable document ->
  exists e,
    extract_text_from_pdf E pdf_path w =
    (Raise e, with_open_documents (pdf_path :: open_documents w) w).
Proof.
  intros Hopen Hnot. unfold extract_text_from_pdf. unfold bind at 1.
  unfold document_open. rewrite Hopen. unfold bind at 1.
  pose proof (extract_pages_world (enumerate document) []
                (with_open_documents (pdf_path :: open_documents w) w))
    as Hworld.
  destruct (extract_pages_raise document 0 []
              (with_open_documents (pdf_path :: open_documents w) w) Hnot)
    as [e He].
  unfold enumerate in *.
  destruct (for_each _ _ _ _) as [[pages|e'] w1]; cbn [fst snd] in *;
    [discriminate He|].
  subst w1. now exists e'.
Qed.

End Handle.

(** C8, what the code does: the extractor touches nothing but the set of
    open documents; it closes the document when every page could be read,
    and leaves it open when the extraction of a page raises. *)
Theorem extract_text_from_pdf_handle (E : environment) (pdf_path : str)
  (document : list pdf_page) (w : world) :
  fitz_open E pdf_path = Ok document ->
  let run := extract_text_from_pdf E pdf_path w in
  (traffic (snd run) = traffic w /\ files (snd run) = files w
   /\ stdout (snd run) = stdout w)
  /\ (Forall readable document ->
      (exists pages, fst run = Ok pages)
      /\ open_documents (snd run) = open_documents w)
  /\ (~ Forall readable document ->
      (exists e, fst run = Raise e)
      /\ open_documents (snd run) = pdf_path :: open_documents w).
Proof.
  intros Hopen run. subst run. split; [|split].
  - destruct (extract_text_from_pdf_world E pdf_path w) as [ds ->].
    repeat split.
  - intros Hread.
    destruct (extract_text_from_pdf_ok E pdf_path document w Hopen Hread)
      as (pages & -> & _).
    split; [now exists pages | reflexivity].
  - intros Hnot.
    destruct (extract_text_from_pdf_raise E pdf_path document w Hopen Hnot)
      as [e ->].
    split; [now exists e | reflexivity].
Qed.

(** A document whose second page cannot be read: the extractor raises and
    the document stays open. *)
Lemma extract_text_from_pdf_handle_witness :
  let E := Scenario.fixed
             [Scenario.text_page (lit "Hello"); Scenario.damaged_page]
             (Ok (Scenario.generated (lit "ok"))) in
  let run := extract_text_from_pdf E Scenario.pdf Scenario.fresh in
  (exists e, fst run = Raise e)
  /\ open_documents (snd run) = [Scenario.pdf].
Proof.
  intros E run.
  refine (proj2 (proj2 (extract_text_from_pdf_handle E Scenario.pdf
                          [Scenario.text_page (lit "Hello");
                           Scenario.damaged_page]
                          Scenario.fresh eq_refl)) _).
  intros Hall. inversion Hall as [|? ? _ Hrest]; subst.
  inversion Hrest as [|? ? (t & bs & Ht & _) _]; subst.
  discriminate Ht.
Defined.

(** ** Further properties of the chunker *)

Section ChunkerInk.

Variable max_size : Z.

Lemma ink_app s t : ink (s ++ t) = ink s ++ ink t.
Proof. apply List.filter_app. Qed.

Lemma ink_space c s : isspace c = true -> ink (c :: s) = ink s.
Proof. intros H. unfold ink. simpl. now rewrite H. Qed.

Lemma ink_cons c s : ink (c :: s) = ink [c] ++ ink s.
Proof. apply (ink_app [c] s). Qed.

Lemma concat_cons_first c pieces :
  concat (cons_first c pieces) = c :: concat pieces.
Proof. destruct pieces; reflexivity. Qed.

Lemma ink_concat_join sep pieces :
  ink sep = [] -> ink (join sep pieces) = ink (concat pieces).
Proof.
  intros Hsep. induction pieces as [|p [|q ps] IH]; [reflexivity | |].
  - simpl. now rewrite app_nil_r.
  - rewrite join_cons by discriminate.
    change (concat (p :: q :: ps)) with (p ++ concat (q :: ps)).
    now rewrite !ink_app, Hsep, IH.
Qed.

(** Splitting at blank lines removes white space only. *)
Lemma ink_split_blank s : ink (concat (split_blank s)) = ink s.
Proof.
  rewrite <- (join_split_blank s) at 2.
  symmetry. now apply ink_concat_join.
Qed.

(** Splitting into sentences removes white space only. *)
Lemma ink_split_scan s : forall st, ink (concat (split_scan st s)) = ink s.
Proof.
  induction s as [|c s IH]; intros st; [reflexivity|].
  cbn [split_scan]. destruct st as [after|].
  - destruct (after && isspace c) eqn:Hmatch.
    + apply andb_true_iff in Hmatch as [_ Hspace].
      cbn [concat app]. now rewrite IH, ink_space.
    + rewrite concat_cons_first, ink_cons, IH. symmetry. apply ink_cons.
  - destruct (isspace c) eqn:Hspace.
    + now rewrite IH, ink_space.
    + rewrite concat_cons_first, ink_cons, IH. symmetry. apply ink_cons.
Qed.

Lemma written_snoc chunks cur s :
  written (chunks ++ [cur], s) = written (chunks, cur) ++ s.
Proof.
  unfold written. cbn [fst snd]. rewrite concat_app. cbn [concat].
  now rewrite app_nil_r, <- app_assoc.
Qed.

Lemma add_sentence_ink st s :
  ink (written (add_sentence max_size st s)) = ink (written st) ++ ink s.
Proof.
  destruct st as [chunks cur]. unfold add_sentence.
  destruct (_ <=? _).
  - unfold written. cbn [fst snd].
    destruct (truthy cur); rewrite !ink_app;
      change (ink [SP]) with (@nil N);
      rewrite ?app_nil_r, <- ?app_assoc; reflexivity.
  - now rewrite written_snoc, ink_app.
Qed.

Lemma add_sentences_ink ss : forall st,
  ink (written (fold_left (add_sentence max_size) ss st))
  = ink (written st) ++ ink (concat ss).
Proof.
  induction ss as [|s ss IH]; intros st.
  - simpl. now rewrite app_nil_r.
  - cbn [fold_left concat]. now rewrite IH, add_sentence_ink, ink_app, app_assoc.
Qed.

Lemma add_paragraph_ink st p :
  ink (written (add_paragraph max_size st p)) = ink (written st) ++ ink p.
Proof.
  destruct st as [chunks cur]. unfold add_paragraph.
  destruct (_ <=? _).
  - unfold written. cbn [fst snd].
    destruct (truthy cur); rewrite !ink_app;
      change (ink blank_line) with (@nil N);
      rewrite ?app_nil_r, <- ?app_assoc; reflexivity.
  - assert (Hflush : forall s,
               ink (written (if truthy cur then chunks ++ [cur] else chunks, s))
               = ink (written (chunks, cur)) ++ ink s).
    { intros s. destruct (truthy cur) eqn:Ht.
      - now rewrite written_snoc, ink_app.
      - apply truthy_false in Ht. subst cur. unfold written. cbn [fst snd].
        rewrite app_nil_r. apply ink_app. }
    destruct (_ >? _).
    + rewrite add_sentences_ink, Hflush.
      change (ink []) with (@nil N). rewrite app_nil_r.
      f_equal. apply ink_split_scan.
    + apply Hflush.
Qed.

Lemma add_paragraphs_ink ps : forall st,
  ink (written (fold_left (add_paragraph max_size) ps st))
  = ink (written st) ++ ink (concat ps).
Proof.
  induction ps as [|p ps IH]; intros st.
  - simpl. now rewrite app_nil_r.
  - cbn [fold_left concat].
    now rewrite IH, add_paragraph_ink, ink_app, app_assoc.
Qed.

Lemma flush_written st : concat (flush st) = written st.
Proof.
  destruct st as [chunks cur]. unfold flush, written. cbn [fst snd].
  destruct (truthy cur) eqn:Ht.
  - rewrite concat_app. cbn [concat]. now rewrite app_nil_r.
  - apply truthy_false in Ht. subst cur. now rewrite app_nil_r.
Qed.

(** With room for the whole text, the loop only ever extends the
    accumulator. *)
Lemma add_paragraphs_fit ps : forall cur,
  cur <> [] ->
  len (cur ++ concat (map (fun p => blank_line ++ p) ps)) + 2 <= max_size ->
  fold_left (add_paragraph max_size) ps ([], cur)
  = ([], cur ++ concat (map (fun p => blank_line ++ p) ps)).
Proof.
  induction ps as [|p ps IH]; intros cur Hcur Hlen.
  - simpl. now rewrite app_nil_r.
  - cbn [fold_left map concat] in *.
    rewrite !len_app in Hlen.
    pose proof (len_nonneg (concat (map (fun p => blank_line ++ p) ps))).
    pose proof (len_nonneg (blank_line)).
    unfold add_paragraph at 2.
    destruct (_ <=? _) eqn:Hfit; [|apply Z.leb_gt in Hfit; lia].
    apply truthy_true in Hcur as Ht. rewrite Ht.
    rewrite IH.
    + now rewrite <- !app_assoc.
    + destruct cur; [discriminate Ht | discriminate].
    + rewrite <- !app_assoc, !len_app. lia.
Qed.

End ChunkerInk.

(** X1: whatever the text and the bound, the chunks of [_chunk_text]
    contain the characters of the text that are not white space, all of
    them and in the same order: chunking only removes or inserts white
    space. *)
Theorem chunk_text_keeps_ink (text : str) (max_size : Z) :
  ink (concat (_chunk_text text max_size)) = ink text.
Proof.
  unfold _chunk_text.
  rewrite flush_written, add_paragraphs_ink.
  apply ink_split_blank.
Qed.

(** X2: a text that fits the bound with two characters to spare and whose
    first paragraph is not empty comes back as one chunk, the text
    itself. *)
Theorem chunk_text_single (text : str) (max_size : Z) (p : str)
  (ps : list str) :
  split_blank text = p :: ps ->
  p <> [] ->
  len text + 2 <= max_size ->
  _chunk_text text max_size = [text].
Proof.
  intros Hsplit Hp Hlen. unfold _chunk_text. rewrite Hsplit.
  pose proof (join_split_blank text) as Hjoin.
  rewrite Hsplit, join_concat in Hjoin.
  cbn [fold_left].
  assert (Hfirst : add_paragraph max_size ([], []) p = ([], p)).
  { unfold add_paragraph. rewrite len_nil.
    destruct (_ <=? _) eqn:Hfit; [reflexivity|].
    apply Z.leb_gt in Hfit. rewrite <- Hjoin, len_app in Hlen.
    pose proof (len_nonneg (concat (map (fun q => blank_line ++ q) ps))).
    lia. }
  rewrite Hfirst, add_paragraphs_fit; [|assumption | now rewrite Hjoin].
  rewrite Hjoin. unfold flush.
  destruct text; [|reflexivity].
  destruct p; [congruence | discriminate Hjoin].
Qed.

(** A page of two short paragraphs. *)
Lemma chunk_text_single_witness :
  let text := lit "Title" ++ blank_line ++ lit "Body text." in
  _chunk_text text default_max_chunk_size = [text].
Proof.
  intros text.
  refine (chunk_text_single text default_max_chunk_size (lit "Title")
            [lit "Body text."] _ _ _).
  - reflexivity.
  - discriminate.
  - vm_compute. discriminate.
Defined.

(** ** What every request looks like *)

Section Sends.

Context (E : environment) (ollama_url : str).
Variable P : request * result http_response -> Prop.

Lemma sends_quiet {A} (m : M A) :
  (forall w, traffic (snd (m w)) = traffic w) -> sends P m.
Proof.
  intros H w. exists []. rewrite app_nil_r. split; [apply H | constructor].
Qed.

Lemma sends_bind {A B} (m : M A) (k : A -> M B) :
  sends P m -> (forall a, sends P (k a)) -> sends P (bind m k).
Proof.
  intros Hm Hk w. unfold bind.
  destruct (Hm w) as (tr & Ht & Htr).
  destruct (m w) as [[a|e] w1]; cbn [snd] in *.
  - destruct (Hk a w1) as (tr' & Ht' & Htr').
    exists (tr ++ tr'). split; [rewrite Ht', Ht; now rewrite app_assoc|].
    apply Forall_app. auto.
  - exists tr. auto.
Qed.

Lemma sends_for_each {A S} (body : S -> A -> M S) (xs : list A) :
  (forall acc x, In x xs -> sends P (body acc x)) ->
  forall acc, sends P (for_each body xs acc).
Proof.
  induction xs as [|x xs IH]; intros Hbody acc; simpl.
  - now apply sends_quiet.
  - apply sends_bind.
    + apply Hbody. now left.
    + apply IH. intros acc' y Hy. apply Hbody. now right.
Qed.

Lemma sends_process_with_gemma content instr :
  (forall reply, P (generate_request ollama_url content instr, reply)) ->
  sends P (process_with_gemma E ollama_url content instr).
Proof.
  intros HP w. rewrite process_with_gemma_run. cbn [snd].
  eexists. split; [reflexivity|]. repeat constructor. apply HP.
Qed.

Lemma sends_extract_text_from_pdf pdf_path :
  sends P (extract_text_from_pdf E pdf_path).
Proof.
  apply sends_quiet. intros w.
  destruct (extract_text_from_pdf_world E pdf_path w) as [ds ->].
  reflexivity.
Qed.

Lemma sends_save output_path final_markdown :
  sends P (save E output_path final_markdown).
Proof. apply sends_quiet. intros w. apply save_traffic. Qed.

(** The requests of the script, by the instruction they carry. *)
Hypothesis chunk_ok : forall page j reply chunk,
  len (page_text page) > 8000 ->
  In chunk (_chunk_text (page_text page) default_max_chunk_size) ->
  P (generate_request ollama_url chunk
       (ChunkInstruction (page_num page) j
          (len (_chunk_text (page_text page) default_max_chunk_size))),
     reply).
Hypothesis combine_ok : forall content n reply,
  P (generate_request ollama_url content (CombineInstruction n), reply).
Hypothesis page_ok : forall page reply,
  len (page_text page) <= 8000 ->
  P (generate_request ollama_url (page_text page)
       (PageInstruction (page_num page)), reply).
Hypothesis section_ok : forall full_content i n reply,
  P (generate_request ollama_url (slice full_content i (i + 10000))
       (SectionInstruction n), reply).
Hypothesis final_ok : forall content reply,
  P (generate_request ollama_url content FinalInstruction, reply).
Hypothesis boundary_ok : forall content reply,
  P (generate_request ollama_url content BoundaryCleanInstruction, reply).

Lemma in_enumerate {A} (xs : list A) j x :
  In (j, x) (enumerate xs) -> In x xs.
Proof.
  unfold enumerate. intros H. apply list_elem_of_In in H.
  apply elem_of_zip_r in H. now apply list_elem_of_In.
Qed.

Lemma sends_process_page page_count full_content item :
  sends P (process_page E ollama_url page_count full_content item).
Proof.
  destruct item as [i page]. unfold process_page.
  apply sends_bind; [now apply sends_quiet | intros _].
  apply sends_bind;
    [|intros; apply sends_bind; intros; now apply sends_quiet].
  destruct (_ >? _) eqn:Hlong.
  - apply Z.gtb_gt in Hlong. apply sends_bind.
    + apply sends_for_each. intros processed [j chunk] Hin.
      apply in_enumerate in Hin. unfold process_chunk.
      apply sends_bind; [now apply sends_quiet | intros _].
      apply sends_bind; [|intros; now apply sends_quiet].
      apply sends_process_with_gemma. intros reply. now apply chunk_ok.
    + intros processed. apply sends_bind; [now apply sends_quiet|].
      intros combined. apply sends_process_with_gemma. intros.
      apply combine_ok.
  - apply sends_process_with_gemma. intros reply. apply page_ok.
    rewrite Z.gtb_ltb in Hlong. now apply Z.ltb_ge in Hlong.
Qed.

Lemma sends_finalize full_content :
  sends P (finalize E ollama_url full_content).
Proof.
  unfold finalize.
  apply sends_bind; [now apply sends_quiet | intros _].
  destruct (_ >? _).
  - apply sends_bind; [now apply sends_quiet | intros _].
    apply sends_bind.
    + apply sends_for_each. intros acc i _. unfold process_section.
      apply sends_bind;
        [|intros; apply sends_bind; intros; now apply sends_quiet].
      apply sends_process_with_gemma. intros. apply section_ok.
    + intros. apply sends_process_with_gemma. intros. apply boundary_ok.
  - apply sends_process_with_gemma. intros. apply final_ok.
Qed.

Lemma sends_convert_to_markdown pdf_path output_path :
  sends P (convert_to_markdown E ollama_url pdf_path output_path).
Proof.
  unfold convert_to_markdown.
  apply sends_bind; [now apply sends_quiet | intros _].
  apply sends_bind; [apply sends_extract_text_from_pdf | intros pages].
  apply sends_bind.
  { apply sends_for_each. intros. apply sends_process_page. }
  intros full_content.
  apply sends_bind; [apply sends_finalize | intros final_markdown].
  apply sends_bind; [apply sends_save | intros; now apply sends_quiet].
Qed.

End Sends.

(** X3: every request of a conversion goes to [{ollama_url}/api/generate]
    for the model [gemma3:4b] with streaming off, whatever the document and
    whatever the endpoint answers. *)
Theorem requests_well_addressed (E : environment)
  (ollama_url pdf_path : str) (output_path : option str) (w : world)
  (ex : request * result http_response) :
  In ex (new_traffic w
           (snd (convert_to_markdown E ollama_url pdf_path output_path w))) ->
  well_addressed ollama_url ex.
Proof.
  intros Hin.
  assert (Hsends : sends (well_addressed ollama_url)
                     (convert_to_markdown E ollama_url pdf_path output_path)).
  { apply sends_convert_to_markdown; intros; repeat split. }
  destruct (Hsends w) as (tr & Ht & Htr).
  rewrite (new_traffic_app _ _ _ Ht) in Hin.
  rewrite List.Forall_forall in Htr. auto.
Qed.

(** A one-page document: its two requests are well addressed. *)
Lemma requests_well_addressed_witness :
  let E := Scenario.fixed [Scenario.text_page (lit "Hello")]
             (Ok (Scenario.generated (lit "# Hello"))) in
  well_addressed Scenario.url
    (generate_request Scenario.url (lit "Hello") (PageInstruction 1),
     Ok (Scenario.generated (lit "# Hello"))).
Proof.
  intros E.
  refine (requests_well_addressed E Scenario.url Scenario.pdf
            (Some Scenario.md) Scenario.fresh _ _).
  vm_compute. left. reflexivity.
Defined.

(** The same for requests that depend on the page they are made for. *)
Section SendsPages.

Context (E : environment) (ollama_url : str).
Variable pages : list page_record.
Variable P : request * result http_response -> Prop.

Hypothesis chunk_ok : forall page j reply chunk,
  In page pages ->
  len (page_text page) > 8000 ->
  In chunk (_chunk_text (page_text page) default_max_chunk_size) ->
  P (generate_request ollama_url chunk
       (ChunkInstruction (page_num page) j
          (len (_chunk_text (page_text page) default_max_chunk_size))),
     reply).
Hypothesis combine_ok : forall content n reply,
  P (generate_request ollama_url content (CombineInstruction n), reply).
Hypothesis page_ok : forall page reply,
  In page pages ->
  len (page_text page) <= 8000 ->
  P (generate_request ollama_url (page_text page)
       (PageInstruction (page_num page)), reply).

Lemma sends_process_page_of page_count full_content i page :
  In page pages ->
  sends P (process_page E ollama_url page_count full_content (i, page)).
Proof.
  intros Hpage. unfold process_page.
  apply sends_bind; [now apply sends_quiet | intros _].
  apply sends_bind;
    [|intros; apply sends_bind; intros; now apply sends_quiet].
  destruct (_ >? _) eqn:Hlong.
  - apply Z.gtb_gt in Hlong. apply sends_bind.
    + apply sends_for_each. intros processed [j chunk] Hin.
      apply in_enumerate in Hin. unfold process_chunk.
      apply sends_bind; [now apply sends_quiet | intros _].
      apply sends_bind; [|intros; now apply sends_quiet].
      apply sends_process_with_gemma. intros reply. now apply chunk_ok.
    + intros processed. apply sends_bind; [now apply sends_quiet|].
      intros combined. apply sends_process_with_gemma. intros.
      apply combine_ok.
  - apply sends_process_with_gemma. intros reply. apply page_ok; [assumption|].
    rewrite Z.gtb_ltb in Hlong. now apply Z.ltb_ge in Hlong.
Qed.

Lemma sends_assemble_pages_of : sends P (assemble_pages E ollama_url pages).
Proof.
  unfold assemble_pages. apply sends_for_each. intros acc [i page] Hin.
  apply in_enumerate in Hin. now apply sends_process_page_of.
Qed.

End SendsPages.

Section Budget.

Context (E : environment) (ollama_url : str).

(** Everything a conversion sends once the records are there. *)
Lemma sends_within_budget pages output_path :
  sends (within_budget pages)
    (bind (assemble_pages E ollama_url pages) (fun full_content =>
     bind (finalize E ollama_url full_content) (fun final_markdown =>
     bind (save E output_path final_markdown) (fun _ =>
     ret final_markdown)))).
Proof.
  apply sends_bind.
  { apply sends_assemble_pages_of; unfold within_budget;
      cbn [fst prompt_instruction prompt_content generate_request].
    - intros page j reply chunk Hpage _ Hchunk. exists page.
      repeat split; try assumption.
      pose proof (chunk_text_bounded (page_text page) default_max_chunk_size)
        as Hb.
      rewrite List.Forall_forall in Hb. apply Hb; [|assumption].
      unfold default_max_chunk_size. lia.
    - intros. exact I.
    - intros page reply Hpage Hlen. exists page. auto. }
  intros full_content. apply sends_bind.
  { apply sends_finalize; unfold within_budget;
      cbn [fst prompt_instruction prompt_content generate_request];
      try (intros; exact I).
    intros content i n reply. unfold slice, len. rewrite length_take. lia. }
  intros final_markdown.
  apply sends_bind; [apply sends_save | intros; now apply sends_quiet].
Qed.

End Budget.

(** X4: the content of every request of a conversion stays within the
    budget of its kind, whatever the document and the answers: a page
    request carries the text of the page it names, of at most 8000
    characters; a chunk request carries a chunk of the page it names, of at
    most 8000 characters unless it is a single sentence of that page; a
    section request carries at most 10000 characters. *)
Theorem requests_within_budget (E : environment)
  (ollama_url pdf_path : str) (output_path : option str) (w : world)
  (ex : request * result http_response) :
  In ex (new_traffic w
           (snd (convert_to_markdown E ollama_url pdf_path output_path w))) ->
  within_budget (records_of E pdf_path w) ex.
Proof.
  unfold records_of, convert_to_markdown. unfold bind at 1.
  cbn [print snd].
  set (w0 := with_stdout (stdout w ++ [MsgExtracting pdf_path]) w).
  unfold bind at 1.
  destruct (extract_text_from_pdf_world E pdf_path w0) as [ds Hworld].
  destruct (extract_text_from_pdf E pdf_path w0) as [[pages|e] w1];
    cbn [fst snd] in *; subst w1.
  - destruct (sends_within_budget E ollama_url pages output_path
                (with_open_documents ds w0)) as (tr & Ht & Htr).
    intros Hin. rewrite (new_traffic_app w _ tr) in Hin by exact Ht.
    rewrite List.Forall_forall in Htr. now apply Htr.
  - unfold new_traffic. cbn [traffic with_open_documents with_stdout w0].
    rewrite drop_all. intros [].
Qed.

(** A page of two paragraphs of 5000 characters is sent in two chunks; the
    request for the first chunk is within its budget. *)
Lemma requests_within_budget_witness :
  let first := repeat 97%N (Z.to_nat 5000) in
  let second := repeat 98%N (Z.to_nat 5000) in
  let E := Scenario.fixed
             [Scenario.text_page (first ++ blank_line ++ second)]
             (Ok (Scenario.generated (lit "ok"))) in
  within_budget (records_of E Scenario.pdf Scenario.fresh)
    (generate_request Scenario.url first (ChunkInstruction 1 1 2),
     Ok (Scenario.generated (lit "ok"))).
Proof.
  intros first second E.
  refine (requests_within_budget E Scenario.url Scenario.pdf
            (Some Scenario.md) Scenario.fresh _ _).
  vm_compute. left. reflexivity.
Defined.

(** ** Errors of the formatter client *)

Section Strict.

Context (E : environment) (ollama_url : str).

Lemma strict_quiet {A} (m : M A) :
  (forall w, files (snd (m w)) = files w /\ traffic (snd (m w)) = traffic w) ->
  strict m.
Proof.
  intros H w. destruct (H w) as [Hf Ht]. split; [assumption|].
  exists []. rewrite app_nil_r. split; [assumption | left; constructor].
Qed.

Lemma strict_bind {A B} (m : M A) (k : A -> M B) :
  strict m -> (forall a, strict (k a)) -> strict (bind m k).
Proof.
  intros Hm Hk w. unfold bind.
  destruct (Hm w) as (Hf & tr & Ht & Htr).
  destruct (m w) as [[a|e] w1]; cbn [fst snd] in *.
  - destruct (Hk a w1) as (Hf' & tr' & Ht' & Htr').
    split; [congruence|].
    exists (tr ++ tr'). split; [rewrite Ht', Ht; now rewrite app_assoc|].
    destruct Htr as [Hok | (tr0 & req & reply & e & _ & _ & _ & Habs)];
      [|discriminate Habs].
    destruct Htr' as [Hok' | (tr0 & req & reply & e & -> & Hok' & Hans & Hres)].
    + left. apply Forall_app. auto.
    + right. exists (tr ++ tr0), req, reply, e.
      rewrite app_assoc. repeat split; try assumption.
      apply Forall_app. auto.
  - split; [assumption|]. exists tr. split; [assumption|].
    destruct Htr as [Hok | (tr0 & req & reply & e' & Heq & Hok & Hans & Hres)].
    + now left.
    + right. exists tr0, req, reply, e'. repeat split; try assumption.
      now injection Hres as ->.
Qed.

Lemma strict_for_each {A S} (body : S -> A -> M S) (xs : list A) :
  (forall acc x, strict (body acc x)) ->
  forall acc, strict (for_each body xs acc).
Proof.
  intros Hbody. induction xs as [|x xs IH]; intros acc; simpl.
  - now apply strict_quiet.
  - apply strict_bind; auto.
Qed.

Lemma strict_process_with_gemma content instr :
  strict (process_with_gemma E ollama_url content instr).
Proof.
  intros w. rewrite process_with_gemma_run. cbn [fst snd].
  split; [reflexivity|].
  eexists. split; [reflexivity|].
  destruct (answer (endpoint E _ _)) as [v|e] eqn:Hanswer.
  - left. repeat constructor. now exists v.
  - right. exists [], (generate_request ollama_url content instr).
    eexists. exists e. repeat split; [constructor | exact Hanswer].
Qed.

(** Solves [strict] goals for the functions of the converter. *)
Ltac strictness :=
  repeat first
    [ apply strict_process_with_gemma
    | apply strict_for_each
    | apply strict_bind
    | apply strict_quiet; intros ?; split; reflexivity
    | intro ].

Lemma strict_extract_text_from_pdf pdf_path :
  strict (extract_text_from_pdf E pdf_path).
Proof.
  apply strict_quiet. intros w.
  destruct (extract_text_from_pdf_world E pdf_path w) as [ds ->].
  split; reflexivity.
Qed.

Lemma strict_process_page page_count full_content item :
  strict (process_page E ollama_url page_count full_content item).
Proof.
  destruct item as [i page]. unfold process_page.
  apply strict_bind; [strictness | intros _].
  apply strict_bind; [|strictness].
  destruct (_ >? _); [|strictness].
  apply strict_bind; [|strictness].
  apply strict_for_each. intros processed [j chunk].
  unfold process_chunk. strictness.
Qed.

Lemma strict_finalize full_content :
  strict (finalize E ollama_url full_content).
Proof.
  unfold finalize. apply strict_bind; [strictness | intros _].
  destruct (_ >? _); [|strictness].
  apply strict_bind; [strictness | intros _].
  apply strict_bind; [|strictness].
  apply strict_for_each. intros acc i. unfold process_section. strictness.
Qed.

Lemma stopping_bind {A B} (m : M A) (k : A -> M B) :
  strict m -> (forall a, stopping (k a)) -> stopping (bind m k).
Proof.
  intros Hm Hk w. unfold bind.
  destruct (Hm w) as (Hf & tr & Ht & Htr).
  destruct (m w) as [[a|e] w1]; cbn [fst snd] in *.
  - destruct (Hk a w1) as (tr' & Ht' & Htr').
    exists (tr ++ tr'). split; [rewrite Ht', Ht; now rewrite app_assoc|].
    destruct Htr as [Hok | (tr0 & req & reply & e & _ & _ & _ & Habs)];
      [|discriminate Habs].
    destruct Htr'
      as [Hok' | (tr0 & req & reply & e & -> & Hok' & Hans & Hres & Hfiles)].
    + left. apply Forall_app. auto.
    + right. exists (tr ++ tr0), req, reply, e.
      rewrite app_assoc. repeat split; try assumption; [|congruence].
      apply Forall_app. auto.
  - exists tr. split; [assumption|].
    destruct Htr as [Hok | (tr0 & req & reply & e' & Heq & Hok & Hans & Hres)].
    + now left.
    + right. exists tr0, req, reply, e'. repeat split; try assumption.
      now injection Hres as ->.
Qed.

Lemma stopping_convert_to_markdown pdf_path output_path :
  stopping (convert_to_markdown E ollama_url pdf_path output_path).
Proof.
  unfold convert_to_markdown.
  apply stopping_bind; [strictness | intros _].
  apply stopping_bind; [apply strict_extract_text_from_pdf | intros pages].
  apply stopping_bind.
  { apply strict_for_each. intros. apply strict_process_page. }
  intros full_content.
  apply stopping_bind; [apply strict_finalize | intros final_markdown].
  intros w. exists []. rewrite app_nil_r. split; [|left; constructor].
  unfold bind at 1.
  pose proof (save_traffic E output_path final_markdown w) as Hsave.
  destruct (save E output_path final_markdown w) as [[[]|e] w1]; exact Hsave.
Qed.

End Strict.

(** X5: whenever a call of [process_with_gemma] raises during a
    conversion, for whatever reason (the endpoint cannot be reached, the
    status is not 200, the body is not JSON or not a JSON object), the
    conversion ends with that very error, the request is the last one
    sent, and no file has been created or changed: there is no retry and
    no partial output. *)
Theorem formatter_error_aborts (E : environment)
  (ollama_url pdf_path : str) (output_path : option str) (w : world)
  (req : request) (reply : result http_response) (e : exn) :
  let run := convert_to_markdown E ollama_url pdf_path output_path w in
  In (req, reply) (new_traffic w (snd run)) ->
  answer reply = Raise e ->
  fst run = Raise e
  /\ files (snd run) = files w
  /\ last (traffic (snd run)) = Some (req, reply).
Proof.
  intros run Hin Hanswer. subst run.
  destruct (stopping_convert_to_markdown E ollama_url pdf_path output_path w)
    as (tr & Ht & Htr).
  rewrite (new_traffic_app _ _ _ Ht) in Hin. rewrite Ht.
  assert (Hbad : ~ answered (req, reply)).
  { intros [v Hv]. cbn [snd] in Hv. congruence. }
  destruct Htr
    as [Hok | (tr0 & req' & reply' & e' & -> & Hok & Hans & Hres & Hfiles)].
  - rewrite List.Forall_forall in Hok. now apply Hok in Hin.
  - apply in_app_or in Hin as [Hin | [Heq | []]].
    + rewrite List.Forall_forall in Hok. now apply Hok in Hin.
    + injection Heq as -> ->. repeat split; [congruence | assumption |].
      now rewrite app_assoc, last_snoc.
Qed.

(** A 200 response whose body is not JSON for the only page. *)
Lemma formatter_error_aborts_witness :
  let E := Scenario.fixed [Scenario.text_page (lit "Hello")]
             (Ok Scenario.not_json) in
  let run := convert_to_markdown E Scenario.url Scenario.pdf
               (Some Scenario.md) Scenario.fresh in
  fst run = Raise JSONDecodeError
  /\ files (snd run) = files Scenario.fresh
  /\ last (traffic (snd run))
     = Some (generate_request Scenario.url (lit "Hello") (PageInstruction 1),
             Ok Scenario.not_json).
Proof.
  intros E run.
  refine (formatter_error_aborts E Scenario.url Scenario.pdf
            (Some Scenario.md) Scenario.fresh _ _ _ _ _).
  - vm_compute. left. reflexivity.
  - reflexivity.
Defined.

(** ** The output file *)

Section Files.

Context (E : environment) (ollama_url : str).

Lemma file_effect_bind {A} output_path (m : M A) (k : A -> M json) :
  disciplined m -> (forall a, file_effect output_path (k a)) ->
  file_effect output_path (bind m k).
Proof.
  intros Hm Hk w. unfold bind.
  destruct (Hm w) as (Hf & _).
  destruct (m w) as [[a|e] w1]; cbn [fst snd] in *.
  - specialize (Hk a w1). rewrite Hf in Hk. exact Hk.
  - left. split; [assumption|]. left. now exists e.
Qed.

(** The last two steps: the write, then [return final_markdown]. *)
Lemma file_effect_save output_path final_markdown :
  file_effect output_path
    (bind (save E output_path final_markdown) (fun _ => ret final_markdown)).
Proof.
  intros w. unfold bind, save.
  destruct output_path as [path|]; [|left; split; [reflexivity | auto]].
  destruct path as [|c path]; [left; split; [reflexivity | auto]|].
  cbn [truthy]. unfold bind, write_text_file, print, ret.
  destruct (writable E (c :: path)).
  - right. exists (c :: path). repeat split; [discriminate|].
    destruct final_markdown;
      try (right; exists TypeError; split; reflexivity).
    destruct (existsb is_surrogate s).
    + right. exists UnicodeEncodeError. split; reflexivity.
    + left. exists s. split; reflexivity.
  - left. split; [reflexivity|]. left. now exists OSError.
Qed.

Lemma file_effect_convert_to_markdown pdf_path output_path :
  file_effect output_path
    (convert_to_markdown E ollama_url pdf_path output_path).
Proof.
  unfold convert_to_markdown.
  apply file_effect_bind; [apply disciplined_print | intros _].
  apply file_effect_bind; [apply disciplined_extract_text_from_pdf|].
  intros pages.
  apply file_effect_bind; [apply disciplined_assemble_pages|].
  intros full_content.
  apply file_effect_bind; [apply disciplined_finalize|].
  intros final_markdown. apply file_effect_save.
Qed.

End Files.

(** X6: a conversion never touches a file other than its output path. *)
Theorem other_files_untouched (E : environment)
  (ollama_url pdf_path : str) (output_path : option str) (w : world)
  (q : str) :
  output_path <> Some q ->
  files (snd (convert_to_markdown E ollama_url pdf_path output_path w)) !! q
  = files w !! q.
Proof.
  intros Hq.
  destruct (file_effect_convert_to_markdown E ollama_url pdf_path
              output_path w)
    as [[-> _] | (path & -> & _ & [(s & _ & ->) | (e & _ & ->)])];
    [reflexivity | |]; apply lookup_insert_ne; congruence.
Qed.

(** The input PDF is not the output path, so it is left alone. *)
Lemma other_files_untouched_witness :
  let E := Scenario.fixed [Scenario.text_page (lit "Hello")]
             (Ok (Scenario.generated (lit "# Hello"))) in
  files (snd (convert_to_markdown E Scenario.url Scenario.pdf
                (Some Scenario.md) Scenario.fresh)) !! Scenario.pdf
  = files Scenario.fresh !! Scenario.pdf.
Proof.
  intros E.
  refine (other_files_untouched E Scenario.url Scenario.pdf
            (Some Scenario.md) Scenario.fresh Scenario.pdf _).
  vm_compute. discriminate.
Defined.

(** X7: when a conversion with a non-empty output path returns normally,
    the value it returns is a string and the output file holds exactly
    that string. *)
Theorem saved_markdown_is_returned (E : environment)
  (ollama_url pdf_path path : str) (w : world) (v : json) :
  let run := convert_to_markdown E ollama_url pdf_path (Some path) w in
  path <> [] ->
  fst run = Ok v ->
  exists s, v = JString s /\ files (snd run) !! path = Some s.
Proof.
  intros run Hpath Hok. subst run.
  destruct (file_effect_convert_to_markdown E ollama_url pdf_path
              (Some path) w)
    as [[_ [[e He] | [Hnone | Hempty]]]
       | (path' & Heq & _ & [(s & Hs & Hfiles) | (e & He & _)])];
    try congruence.
  injection Heq as <-. exists s. split; [congruence|].
  rewrite Hfiles. apply lookup_insert_eq.
Qed.

(** A one-page document against an endpoint that always generates the same
    text: the file holds the text. *)
Lemma saved_markdown_is_returned_witness :
  let E := Scenario.fixed [Scenario.text_page (lit "Hello")]
             (Ok (Scenario.generated (lit "# Hello"))) in
  let run := convert_to_markdown E Scenario.url Scenario.pdf
               (Some Scenario.md) Scenario.fresh in
  exists s, JString (lit "# Hello") = JString s
            /\ files (snd run) !! Scenario.md = Some s.
Proof.
  intros E run.
  refine (saved_markdown_is_returned E Scenario.url Scenario.pdf
            Scenario.md Scenario.fresh (JString (lit "# Hello")) _ _).
  - discriminate.
  - vm_compute. reflexivity.
Defined.

(** X8: when the PDF cannot be opened, the conversion ends with the error
    of the PDF library after printing its first progress line: no request
    is sent, no document is left open and no file is written. *)
Theorem unreadable_pdf_aborts (E : environment)
  (ollama_url pdf_path : str) (output_path : option str) (w : world)
  (e : exn) :
  fitz_open E pdf_path = Raise e ->
  convert_to_markdown E ollama_url pdf_path output_path w
  = (Raise e, with_stdout (stdout w ++ [MsgExtracting pdf_path]) w).
Proof.
  intros Hopen.
  unfold convert_to_markdown, extract_text_from_pdf, document_open, bind,
    print.
  now rewrite Hopen.
Qed.

(** A path at which there is no PDF. *)
Lemma unreadable_pdf_aborts_witness :
  let E := {| fitz_open := fun _ => Raise (FitzError (lit "no such file"));
              endpoint := fun _ _ => Ok (Scenario.generated (lit "ok"));
              writable := fun _ => true |} in
  convert_to_markdown E Scenario.url Scenario.pdf (Some Scenario.md)
    Scenario.fresh
  = (Raise (FitzError (lit "no such file")),
     with_stdout [MsgExtracting Scenario.pdf] Scenario.fresh).
Proof.
  intros E.
  exact (unreadable_pdf_aborts E Scenario.url Scenario.pdf
           (Some Scenario.md) Scenario.fresh
           (FitzError (lit "no such file")) eq_refl).
Defined.

(** ** The records of the extractor *)

Section Records.

Lemma lstrip_head s c : head (lstrip s) = Some c -> isspace c = false.
Proof.
  induction s as [|x s IH]; [discriminate|].
  cbn [lstrip]. destruct (isspace x) eqn:Hx; [assumption|].
  intros [= <-]. assumption.
Qed.

Lemma lstrip_last s c : last (lstrip s) = Some c -> last s = Some c.
Proof.
  induction s as [|x s IH]; [discriminate|].
  cbn [lstrip]. destruct (isspace x); [|auto].
  intros H. specialize (IH H). destruct s; [discriminate IH|].
  now rewrite last_cons_cons.
Qed.

Lemma head_rev (s : str) : head (rev s) = last s.
Proof.
  induction s as [|x s IH]; [reflexivity|].
  cbn [rev]. destruct s as [|y s]; [reflexivity|].
  rewrite last_cons_cons, <- IH.
  destruct (rev (y :: s)) eqn:Hrev; [|reflexivity].
  apply (f_equal (@length N)) in Hrev. rewrite length_rev in Hrev.
  discriminate Hrev.
Qed.

Lemma last_rev (s : str) : last (rev s) = head s.
Proof. rewrite <- head_rev. now rewrite rev_involutive. Qed.

(** [strip] leaves no white space at either end. *)
Lemma strip_trimmed s : trimmed (strip s).
Proof.
  unfold strip. split; intros c Hc.
  - rewrite head_rev in Hc. apply lstrip_last in Hc.
    rewrite last_rev in Hc. now apply lstrip_head in Hc.
  - rewrite last_rev in Hc. now apply lstrip_head in Hc.
Qed.

(** The record of the [k]-th page after page [i]. *)
Lemma pages_extracted_lookup i document pages :
  pages_extracted i document pages ->
  forall (k : nat) page,
    document !! k = Some page ->
    exists t bs,
      get_text_text page = Ok t /\ get_text_blocks page = Ok bs
      /\ pages !! k = Some {| page_num := Z.of_nat (i + k) + 1;
                              page_text := extracted_text t bs;
                              width := rect_width page;
                              height := rect_height page;
                              blocks := map structure_block bs |}.
Proof.
  induction 1 as [|i page0 document t bs pages Ht Hbs _ IH];
    intros k page Hk; [discriminate Hk|].
  destruct k as [|k].
  - injection Hk as <-. exists t, bs. rewrite Nat.add_0_r. auto.
  - destruct (IH k page Hk) as (t' & bs' & Ht' & Hbs' & Hrec).
    exists t', bs'. replace (i + S k)%nat with (S i + k)%nat by lia. auto.
Qed.

End Records.

(** X9: in the records of a readable document, the [text] of a page that
    has text blocks is the text of its last block, not the plain text of
    the page: unpacking a block assigns to the variable that holds the page
    text.  Only a page without blocks keeps its plain text. *)
Theorem record_text_is_last_block (E : environment) (pdf_path : str)
  (document : list pdf_page) (w : world) (k : nat) (page : pdf_page)
  (t : str) (bs : list raw_block) :
  fitz_open E pdf_path = Ok document ->
  Forall readable document ->
  document !! k = Some page ->
  get_text_text page = Ok t ->
  get_text_blocks page = Ok bs ->
  exists pages record,
    fst (extract_text_from_pdf E pdf_path w) = Ok pages
    /\ pages !! k = Some record
    /\ page_num record = Z.of_nat k + 1
    /\ (forall b, last bs = Some b -> page_text record = block_text b)
    /\ (bs = [] -> page_text record = t).
Proof.
  intros Hopen Hread Hk Ht Hbs.
  destruct (extract_text_from_pdf_ok E pdf_path document w Hopen Hread)
    as (pages & -> & Hpages).
  destruct (pages_extracted_lookup 0 document pages Hpages k page Hk)
    as (t' & bs' & Ht' & Hbs' & Hrec).
  rewrite Ht in Ht'. rewrite Hbs in Hbs'.
  injection Ht' as <-. injection Hbs' as <-.
  eexists. eexists. split; [reflexivity|]. split; [exact Hrec|].
  cbn [page_num page_text]. unfold extracted_text. repeat split.
  - intros b ->. reflexivity.
  - intros ->. reflexivity.
Qed.

(** A page whose plain text is ["Title\nBody"] and whose blocks are
    ["Title"] and ["Body"]: the record says ["Body"]. *)
Lemma record_text_is_last_block_witness :
  let block s := {| x0 := Scenario.zero; y0 := Scenario.zero;
                    x1 := Scenario.zero; y1 := Scenario.zero;
                    block_text := s; block_no := 0; block_type := 0 |} in
  let page := {| get_text_text := Ok (lit "Title" ++ [LF] ++ lit "Body");
                 rect_width := Scenario.zero; rect_height := Scenario.zero;
                 get_text_blocks := Ok [block (lit "Title");
                                        block (lit "Body")] |} in
  let E := Scenario.fixed [page] (Ok (Scenario.generated (lit "ok"))) in
  exists pages record,
    fst (extract_text_from_pdf E Scenario.pdf Scenario.fresh) = Ok pages
    /\ pages !! 0%nat = Some record
    /\ page_num record = Z.of_nat 0 + 1
    /\ (forall b, last [block (lit "Title"); block (lit "Body")] = Some b ->
                  page_text record = block_text b)
    /\ ([block (lit "Title"); block (lit "Body")] = [] ->
        page_text record = lit "Title" ++ [LF] ++ lit "Body").
Proof.
  intros block page E.
  refine (record_text_is_last_block E Scenario.pdf [page] Scenario.fresh
            0 page _ _ eq_refl _ eq_refl eq_refl eq_refl).
  repeat constructor. eexists. eexists. split; reflexivity.
Defined.

(** X10: the [blocks] of a record are the text blocks of the page, one for
    one and in order, each with its type and with its text stripped: no
    block text starts or ends with white space. *)
Theorem record_blocks_stripped (E : environment) (pdf_path : str)
  (document : list pdf_page) (w : world) (k : nat) (page : pdf_page)
  (bs : list raw_block) :
  fitz_open E pdf_path = Ok document ->
  Forall readable document ->
  document !! k = Some page ->
  get_text_blocks page = Ok bs ->
  exists pages record,
    fst (extract_text_from_pdf E pdf_path w) = Ok pages
    /\ pages !! k = Some record
    /\ map sb_text (blocks record) = map (fun b => strip (block_text b)) bs
    /\ map sb_type (blocks record) = map block_type bs
    /\ Forall trimmed (map sb_text (blocks record)).
Proof.
  intros Hopen Hread Hk Hbs.
  destruct (extract_text_from_pdf_ok E pdf_path document w Hopen Hread)
    as (pages & -> & Hpages).
  destruct (pages_extracted_lookup 0 document pages Hpages k page Hk)
    as (t' & bs' & Ht' & Hbs' & Hrec).
  rewrite Hbs in Hbs'. injection Hbs' as <-.
  eexists. eexists. split; [reflexivity|]. split; [exact Hrec|].
  cbn [blocks]. rewrite !map_map. cbn [structure_block sb_text sb_type].
  repeat split.
  apply Forall_map. apply List.Forall_forall. intros b _.
  apply strip_trimmed.
Qed.

(** A block whose text is padded with a space and a line feed. *)
Lemma record_blocks_stripped_witness :
  let block := {| x0 := Scenario.zero; y0 := Scenario.zero;
                  x1 := Scenario.zero; y1 := Scenario.zero;
                  block_text := [SP] ++ lit "Title" ++ [LF];
                  block_no := 0; block_type := 0 |} in
  let page := {| get_text_text := Ok (lit "Title");
                 rect_width := Scenario.zero; rect_height := Scenario.zero;
                 get_text_blocks := Ok [block] |} in
  let E := Scenario.fixed [page] (Ok (Scenario.generated (lit "ok"))) in
  exists pages record,
    fst (extract_text_from_pdf E Scenario.pdf Scenario.fresh) = Ok pages
    /\ pages !! 0%nat = Some record
    /\ map sb_text (blocks record)
       = map (fun b => strip (block_text b)) [block]
    /\ map sb_type (blocks record) = map block_type [block]
    /\ Forall trimmed (map sb_text (blocks record)).
Proof.
  intros block page E.
  refine (record_blocks_stripped E Scenario.pdf [page] Scenario.fresh
            0 page [block] eq_refl _ eq_refl eq_refl).
  repeat constructor. eexists. eexists. split; reflexivity.
Defined.

(** ** The sections cover the buffer *)

Section Cover.

Lemma sections_run_contents ollama_url full_content k tr outs :
  sections_run ollama_url full_content k tr outs ->
  map (fun ex => prompt_content (fst ex)) tr
  = map (window full_content) (seq k (length tr)).
Proof.
  induction 1 as [|k reply out tr outs _ _ IH]; [reflexivity|].
  cbn [map length seq fst prompt_content generate_request]. now rewrite IH.
Qed.

(** The first 9000 characters of the windows from [k] on make up the
    buffer from offset [9000 * k], provided the windows reach its end. *)
Lemma windows_cover full_content (n : nat) : forall (k : nat),
  len full_content <= 9000 * Z.of_nat (k + n) ->
  concat (map (fun j => take (Z.to_nat 9000) (window full_content j))
              (seq k n))
  = drop (Z.to_nat (9000 * Z.of_nat k)) full_content.
Proof.
  induction n as [|n IH]; intros k Hlen.
  - cbn [seq map concat]. symmetry. apply drop_ge. unfold len in Hlen. lia.
  - cbn [seq map concat]. rewrite IH by lia.
    unfold window, slice. rewrite take_take.
    replace (Z.to_nat (9000 * Z.of_nat (S k)))
      with (Z.to_nat (9000 * Z.of_nat k) + Z.to_nat 9000)%nat by lia.
    rewrite <- drop_drop.
    replace (Z.to_nat 9000 `min`
               Z.to_nat (9000 * Z.of_nat k + 10000 - 9000 * Z.of_nat k))%nat
      with (Z.to_nat 9000) by lia.
    apply take_drop.
Qed.

End Cover.

(** X11: when a buffer longer than 12000 characters is processed in
    sections by an endpoint that answers every request, no character of
    the buffer is left out: the first 9000 characters of the content of
    each section request, put end to end, are the buffer. *)
Theorem sections_cover_buffer (E : environment) (ollama_url : str)
  (full_content : str) (w : world) :
  len full_content > 12000 ->
  well_behaved E ->
  exists tr outs reply,
    new_traffic w (snd (finalize E ollama_url full_content w))
    = tr ++ [(generate_request ollama_url (concat outs)
                BoundaryCleanInstruction, reply)]
    /\ concat (map (fun ex => take (Z.to_nat 9000) (prompt_content (fst ex)))
                   tr)
       = full_content.
Proof.
  intros Hlen Hok.
  destruct (finalize_sections_ok E ollama_url Hok full_content w Hlen)
    as (tr & outs & reply & final & _ & Htr & Hrun & Hcount & _).
  exists tr, outs, reply. split; [exact Htr|].
  rewrite <- (map_map (fun ex => prompt_content (fst ex))
                (take (Z.to_nat 9000))).
  rewrite (sections_run_contents _ _ _ _ _ Hrun), map_map, Hcount.
  rewrite windows_cover; [reflexivity|].
  unfold window_count. cbn [Nat.add].
  assert (0 <= len full_content) by apply len_nonneg.
  rewrite Z2Nat.id by (apply Z.div_pos; lia).
  pose proof (Z.div_mod (len full_content + 8999) 9000).
  pose proof (Z.mod_pos_bound (len full_content + 8999) 9000).
  lia.
Qed.

(** A buffer of 12001 characters. *)
Lemma sections_cover_buffer_witness :
  let E := Scenario.fixed [] (Ok (Scenario.generated (lit "ok"))) in
  let buffer := repeat 97%N (Z.to_nat 12001) in
  exists tr outs reply,
    new_traffic Scenario.fresh
      (snd (finalize E Scenario.url buffer Scenario.fresh))
    = tr ++ [(generate_request Scenario.url (concat outs)
                BoundaryCleanInstruction, reply)]
    /\ concat (map (fun ex => take (Z.to_nat 9000) (prompt_content (fst ex)))
                   tr)
       = buffer.
Proof.
  intros E buffer.
  refine (sections_cover_buffer E Scenario.url buffer Scenario.fresh _ _).
  - vm_compute. reflexivity.
  - apply fixed_well_behaved.
Defined.

(** ** The output path of the command line *)

Section OutputPath.

Lemma rfind_lower c s : -1 <= rfind c s.
Proof.
  induction s as [|x s IH]; cbn [rfind]; [lia|].
  destruct (0 <=? rfind c s) eqn:H; [apply Z.leb_le in H; lia|].
  destruct (x =? c)%N; lia.
Qed.

Lemma rfind_absent c s : ~ In c s -> rfind c s = -1.
Proof.
  induction s as [|x s IH]; intros Hnot; cbn [rfind]; [reflexivity|].
  rewrite IH by (intros H; apply Hnot; now right). cbn.
  destruct (N.eqb_spec x c) as [->|]; [|reflexivity].
  exfalso. apply Hnot. now left.
Qed.

Lemma rfind_app c a b :
  rfind c (a ++ b)
  = if 0 <=? rfind c b then len a + rfind c b else rfind c a.
Proof.
  induction a as [|x a IH].
  - cbn [app rfind]. unfold len. cbn [length].
    destruct (0 <=? rfind c b) eqn:H; [lia|].
    apply Z.leb_gt in H. pose proof (rfind_lower c b). lia.
  - cbn [app rfind]. rewrite IH.
    destruct (0 <=? rfind c b) eqn:H; [|reflexivity].
    apply Z.leb_le in H. pose proof (len_nonneg a).
    destruct (0 <=? len a + rfind c b) eqn:H'; [|apply Z.leb_gt in H'; lia].
    unfold len. cbn [length]. lia.
Qed.

Lemma rfind_head c s : ~ In c s -> rfind c (c :: s) = 0.
Proof.
  intros Hnot. cbn [rfind]. rewrite (rfind_absent c s Hnot). cbn.
  now rewrite N.eqb_refl.
Qed.

(** The extension of a path whose file name has one. *)
Lemma splitext_extension dir name ext :
  dir = [] \/ (exists d, dir = d ++ [SLASH]) ->
  ~ In SLASH name ->
  (exists c, In c name /\ c <> DOT) ->
  ~ In DOT ext -> ~ In SLASH ext ->
  splitext (dir ++ name ++ DOT :: ext) = (dir ++ name, DOT :: ext).
Proof.
  intros Hdir Hname Hnondot Hext Hext'. unfold splitext.
  assert (Hdot : rfind DOT (dir ++ name ++ DOT :: ext) = len (dir ++ name)).
  { rewrite app_assoc, rfind_app, (rfind_head DOT ext Hext). cbn. lia. }
  assert (Hsep : rfind SLASH (dir ++ name ++ DOT :: ext) = len dir - 1).
  { rewrite rfind_app, (rfind_absent SLASH (name ++ DOT :: ext)).
    - cbn. destruct Hdir as [-> | [d ->]]; [reflexivity|].
      rewrite rfind_app, (rfind_head SLASH [] (fun H => H)). cbn.
      rewrite len_app. change (len [SLASH]) with 1. lia.
    - intros Hin. apply in_app_or in Hin as [Hin | [Hin | Hin]]; auto.
      discriminate Hin. }
  rewrite Hdot, Hsep, len_app.
  pose proof (len_nonneg dir). pose proof (len_nonneg name).
  replace (len dir + len name >? len dir - 1) with true
    by (symmetry; apply Z.gtb_gt; lia).
  assert (Hslice : slice (dir ++ name ++ DOT :: ext) (len dir - 1 + 1)
                     (len dir + len name) = name).
  { unfold slice, len.
    replace (Z.to_nat (Z.of_nat (length dir) - 1 + 1)) with (length dir)
      by lia.
    rewrite drop_app_length.
    replace (Z.to_nat (Z.of_nat (length dir) + Z.of_nat (length name)
                       - (Z.of_nat (length dir) - 1 + 1)))
      with (length name) by lia.
    apply take_app_length. }
  rewrite Hslice.
  replace (existsb (fun c => negb (c =? DOT)%N) name) with true.
  - cbn [andb]. unfold slice, len.
    replace (Z.to_nat (Z.of_nat (length dir) + Z.of_nat (length name) - 0))
      with (length (dir ++ name)) by (rewrite length_app; lia).
    replace (Z.to_nat (Z.of_nat (length dir) + Z.of_nat (length name)))
      with (length (dir ++ name)) by (rewrite length_app; lia).
    change (Z.to_nat 0) with 0%nat. rewrite drop_0, (app_assoc dir name).
    now rewrite take_app_length, drop_app_length.
  - symmetry. apply existsb_exists. destruct Hnondot as (c & Hc & Hne).
    exists c. split; [assumption|]. now apply negb_true_iff, N.eqb_neq.
Qed.

Lemma output_path_nonempty pdf_path output :
  output_path_of pdf_path output <> [].
Proof.
  unfold output_path_of.
  assert (Hdefault : fst (splitext pdf_path) ++ lit ".md" <> []).
  { intros H. apply app_eq_nil in H as [_ H]. discriminate H. }
  destruct output as [[|c o]|]; cbn [truthy]; [assumption | discriminate |
    assumption].
Qed.

End OutputPath.

(** X12: without [--output], the output path is the PDF path with the
    extension of its file name replaced by [.md], for any file name that
    has an extension after a character other than a dot. *)
Theorem default_output_replaces_extension (dir name ext : str) :
  dir = [] \/ (exists d, dir = d ++ [SLASH]) ->
  ~ In SLASH name ->
  (exists c, In c name /\ c <> DOT) ->
  ~ In DOT ext -> ~ In SLASH ext ->
  output_path_of (dir ++ name ++ DOT :: ext) None = dir ++ name ++ lit ".md".
Proof.
  intros Hdir Hname Hnondot Hext Hext'. unfold output_path_of.
  rewrite splitext_extension by assumption. cbn [fst].
  now rewrite <- app_assoc.
Qed.

(** [docs/in.pdf] is converted into [docs/in.md]. *)
Lemma default_output_replaces_extension_witness :
  output_path_of (lit "docs/in.pdf") None = lit "docs/in.md".
Proof.
  refine (default_output_replaces_extension (lit "docs/") (lit "in")
            (lit "pdf") _ _ _ _ _).
  - right. now exists (lit "docs").
  - vm_compute. intuition discriminate.
  - exists 105%N. split; [now left | discriminate].
  - vm_compute. intuition discriminate.
  - vm_compute. intuition discriminate.
Defined.

(** X13: the output path of the command line is never empty, so a
    conversion started from it that returns normally has written the
    Markdown it returns to that path. *)
Theorem command_line_saves (E : environment) (ollama_url pdf_path : str)
  (output : option str) (w : world) (v : json) :
  let path := output_path_of pdf_path output in
  let run := convert_to_markdown E ollama_url pdf_path (Some path) w in
  fst run = Ok v ->
  exists s, v = JString s /\ files (snd run) !! path = Some s.
Proof.
  intros path run Hok. subst run.
  destruct (file_effect_convert_to_markdown E ollama_url pdf_path
              (Some path) w)
    as [[_ [[e He] | [Hnone | Hempty]]]
       | (path' & Heq & _ & [(s & Hs & Hfiles) | (e & He & _)])];
    try congruence.
  - injection Hempty as Hempty.
    now apply output_path_nonempty in Hempty.
  - injection Heq as <-. exists s. split; [congruence|].
    rewrite Hfiles. apply lookup_insert_eq.
Qed.

(** The command line without [--output] on [in.pdf]. *)
Lemma command_line_saves_witness :
  let E := Scenario.fixed [Scenario.text_page (lit "Hello")]
             (Ok (Scenario.generated (lit "# Hello"))) in
  let path := output_path_of Scenario.pdf None in
  let run := convert_to_markdown E Scenario.url Scenario.pdf (Some path)
               Scenario.fresh in
  exists s, JString (lit "# Hello") = JString s
            /\ files (snd run) !! path = Some s.
Proof.
  intros E path run.
  refine (command_line_saves E Scenario.url Scenario.pdf None
            Scenario.fresh (JString (lit "# Hello")) _).
  vm_compute. reflexivity.
Defined.

(** ** Where empty chunks come from *)

Section EmptyChunks.

Variables (text : str) (max_size : Z).

Lemma open_ended_cons_first c x l :
  l = [] \/ open_ended l -> open_ended (cons_first c (x :: l)).
Proof.
  intros [-> | Hl]; cbn [cons_first]; [constructor|].
  constructor; [discriminate | assumption].
Qed.

(** In the output of the scanner only the first and the last piece may be
    empty, and after a match only the last. *)
Lemma split_scan_open_ended s :
  (forall st, exists x l,
      split_scan st s = x :: l /\ (l = [] \/ open_ended l))
  /\ open_ended (split_scan Gap s).
Proof.
  induction s as [|c s [IHany IHgap]].
  - split; [|constructor]. intros st. exists [], []. auto.
  - assert (Hcons : forall st, open_ended (cons_first c (split_scan st s))).
    { intros st. destruct (IHany st) as (x & l & -> & Hl).
      now apply open_ended_cons_first. }
    assert (Hcons' : forall st, exists x l,
               cons_first c (split_scan st s) = x :: l
               /\ (l = [] \/ open_ended l)).
    { intros st. destruct (IHany st) as (x & l & -> & Hl).
      exists (c :: x), l. auto. }
    split.
    + intros [after|]; cbn [split_scan].
      * destruct (after && isspace c); [|apply Hcons'].
        exists [], (split_scan Gap s). auto.
      * destruct (isspace c); [apply IHany | apply Hcons'].
    + cbn [split_scan]. destruct (isspace c); [assumption | apply Hcons].
Qed.

Lemma split_sentences_open_ended p : open_ended (split_sentences p).
Proof.
  unfold split_sentences. destruct p as [|c p]; [constructor|].
  cbn [split_scan andb].
  destruct (proj1 (split_scan_open_ended p) (Text (is_terminator c)))
    as (x & l & -> & Hl).
  now apply open_ended_cons_first.
Qed.

Local Abbreviation explained :=
  (fun st : state => In [] (fst st) -> long_first_sentence text max_size).

(** Past the first sentence, the sentence loop appends non-empty
    accumulators only. *)
Lemma add_sentences_explained ss : forall st,
  ss = [] \/ (snd st <> [] /\ open_ended ss) ->
  explained st ->
  explained (fold_left (add_sentence max_size) ss st).
Proof.
  induction ss as [|s ss IH]; intros [chunks cur] Hss Hst; [assumption|].
  destruct Hss as [Hnil | [Hcur Hopen]]; [discriminate Hnil|].
  cbn [fold_left snd] in *. apply IH.
  - unfold add_sentence. destruct (_ <=? _); cbn [snd].
    + destruct ss as [|s' ss]; [now left | right]. split.
      * destruct cur; [congruence | discriminate].
      * inversion Hopen; assumption.
    + destruct ss as [|s' ss]; [now left | right].
      inversion Hopen; subst. auto.
  - unfold add_sentence. destruct (_ <=? _); cbn [fst] in *; [assumption|].
    intros Hin. apply Hst. apply in_app_or in Hin as [Hin | [Heq | []]];
      [assumption | congruence].
Qed.

Lemma add_paragraph_explained st p :
  In p (split_blank text) -> explained st ->
  explained (add_paragraph max_size st p).
Proof.
  destruct st as [chunks cur]. intros Hp Hst. unfold add_paragraph.
  destruct (_ <=? _); [assumption|].
  assert (Hflushed : In [] (if truthy cur then chunks ++ [cur] else chunks)
                     -> long_first_sentence text max_size).
  { destruct (truthy cur) eqn:Ht; [|assumption].
    apply truthy_true in Ht. intros Hin. apply Hst.
    apply in_app_or in Hin as [Hin | [Heq | []]]; [assumption | congruence]. }
  destruct (_ >? _) eqn:Hlong; [|assumption].
  apply Z.gtb_gt in Hlong.
  pose proof (split_sentences_open_ended p) as Hopen.
  destruct (split_sentences p) as [|s1 rest] eqn:Hss;
    [now apply split_sentences_nonempty in Hss|].
  cbn [fold_left]. unfold add_sentence at 2. rewrite len_nil.
  destruct (_ <=? _) eqn:Hfit.
  - apply add_sentences_explained; [|assumption].
    cbn [truthy app snd].
    destruct rest as [|s2 rest]; [now left | right].
    inversion Hopen; subst. auto.
  - intros _. apply Z.leb_gt in Hfit. exists p, s1.
    rewrite Hss. repeat split; [assumption | assumption | lia].
Qed.

End EmptyChunks.

(** X14: the result of [_chunk_text] contains the empty string only if
    some paragraph longer than [max_size] begins with a sentence of length
    at least [max_size]; in every other case no chunk is empty. *)
Theorem empty_chunk_only_from_long_sentence (text : str) (max_size : Z) :
  In [] (_chunk_text text max_size) ->
  long_first_sentence text max_size.
Proof.
  unfold _chunk_text. intros Hin.
  assert (H : In [] (fst (fold_left (add_paragraph max_size)
                            (split_blank text) ([], []))) ->
              long_first_sentence text max_size).
  { apply (fold_left_invariant _
             (fun st => In [] (fst st) -> long_first_sentence text max_size)
             (fun p => In p (split_blank text))).
    - intros st p Hst Hp. now apply add_paragraph_explained.
    - apply List.Forall_forall. auto.
    - intros []. }
  destruct (fold_left _ _ _) as [chunks cur]. apply H.
  unfold flush in Hin. cbn [fst]. destruct (truthy cur) eqn:Ht; [|assumption].
  apply truthy_true in Ht.
  apply in_app_or in Hin as [Hin | [Heq | []]]; [assumption | congruence].
Qed.

(** [_chunk_text("abc", 2)] contains the empty string, and ["abc"] is such
    a paragraph. *)
Lemma empty_chunk_only_from_long_sentence_witness :
  long_first_sentence (lit "abc") 2.
Proof.
  refine (empty_chunk_only_from_long_sentence (lit "abc") 2 _).
  vm_compute. auto.
Defined.
